(** * NationalSite_Crawling: the cache layer of [proj2_nps.py]

    A shallow embedding of the Python program [proj2_nps.py]: the on-disk
    JSON cache ([open_cache], [save_cache]), the request-key builder
    ([construct_unique_key]), the two fetch paths
    ([make_request_with_cache], [get_nearby_places]) and the interactive
    loop of the [__main__] block.

    Conventions of the embedding.
    - A Python [str] is a [string]: a sequence of 8-bit characters, read as
      the code points 0..255.
    - A Python [dict] is an association list in insertion order whose keys
      are pairwise distinct ([dict_wf]); [dict_set] is [d[k] = v].
    - A Python exception is a [Raise] in the [result] type; effectful code
      runs in the monad [M] over a [world] holding the cache file, the
      answers of the network, the lines of the terminal and the log of the
      effects performed so far.
    - The [json] module is modelled by an encoder and a decoder of its
      own ([Json.dumps], [Json.loads]) on values without floats.
    - BeautifulSoup is a parameter: what it finds in a page.
    - The decoder and the two [while True] loops recurse on fuel;
      [loads_fuel_enough] and [main_never_out_of_fuel] show that the fuel
      they are given never runs out. *)

From Stdlib Require Import String Ascii List Bool Arith ZArith NArith Lia.
From Stdlib Require Import Permutation Sorted Mergesort Orders.
From Stdlib Require Import DecimalString DecimalFacts DecimalPos DecimalN.
Import ListNotations.
Open Scope string_scope.
Open Scope list_scope.

Set Implicit Arguments.

(** ** Exceptions and results *)

Inductive exn : Type :=
| FileNotFoundError    (* [open(name, 'r')] of a file that is not there *)
| UnicodeDecodeError   (* [read()] of bytes that are not text *)
| AttributeError   (* [.keys()] on a value that is not a dict *)
| KeyError         (* subscript of a dict at a missing key *)
| IndexError       (* subscript of a list out of its range *)
| TypeError        (* subscript of a value that cannot be subscripted so *)
| ValueError       (* [int()] of a string that is not a decimal literal *)
| JSONDecodeError  (* [json.loads] / [response.json()] of malformed text *)
| RequestException (* [requests.get] failed *)
| ParseError       (* a page has not the expected structure: what the
                      access to an element that is not there raises *)
| EOFError         (* [input()] at the end of the input *)
| OutOfFuel.       (* of the model only: a loop given too little fuel *)

Inductive result (A : Type) : Type :=
| Ok (a : A)
| Raise (e : exn).
Arguments Ok {A} a.
Arguments Raise {A} e.

Definition rbind {A B} (r : result A) (k : A -> result B) : result B :=
  match r with
  | Ok a => k a
  | Raise e => Raise e
  end.

(** ** Dictionaries *)

Section Dict.
Variable V : Type.

Definition dict := list (string * V).

Definition dict_keys (d : dict) : list string := map fst d.

Fixpoint dict_get (d : dict) (k : string) : option V :=
  match d with
  | [] => None
  | (k', v) :: d' => if String.eqb k k' then Some v else dict_get d' k
  end.

(** [k in d.keys()] *)
Definition dict_mem (d : dict) (k : string) : bool :=
  match dict_get d k with Some _ => true | None => false end.

(** [d[k]] *)
Definition subscript (d : dict) (k : string) : result V :=
  match dict_get d k with Some v => Ok v | None => Raise KeyError end.

(** [d[k] = v]: an existing key keeps its place, a new one goes last. *)
Fixpoint dict_set (d : dict) (k : string) (v : V) : dict :=
  match d with
  | [] => [(k, v)]
  | (k', v') :: d' =>
      if String.eqb k k' then (k', v) :: d' else (k', v') :: dict_set d' k v
  end.

Definition dict_wf (d : dict) : Prop := NoDup (dict_keys d).
End Dict.

Arguments dict_get {V} d k.
Arguments dict_mem {V} d k.
Arguments subscript {V} d k.
Arguments dict_set {V} d k v.
Arguments dict_keys {V} d.
Arguments dict_wf {V} d.

(** ** Sorting lists of strings: [list.sort()]

    Python compares strings code point by code point, a proper prefix
    being smaller: that is [String.leb].  The order is total and
    antisymmetric, so the sorted arrangement of a list is unique and the
    sorting algorithm does not show; the model inserts one by one. *)

Fixpoint insert_sorted (x : string) (l : list string) : list string :=
  match l with
  | [] => [x]
  | y :: l' => if String.leb x y then x :: l else y :: insert_sorted x l'
  end.

Fixpoint list_sort (l : list string) : list string :=
  match l with
  | [] => []
  | x :: l' => insert_sorted x (list_sort l')
  end.

(** ** construct_unique_key (lines 55-77) *)

Definition connector : string := "_".

(** The loop [for k in params.keys(): param_strings.append(f"{k}_{params[k]}")],
    started from the list [acc]. *)
Fixpoint collect_param_strings (params : dict string) (ks : list string)
         (acc : list string) : result (list string) :=
  match ks with
  | [] => Ok acc
  | k :: ks' =>
      rbind (subscript params k) (fun v =>
      collect_param_strings params ks' (acc ++ [(k ++ "_" ++ v)%string]))
  end.

Definition construct_unique_key (baseurl : string) (params : dict string)
  : result string :=
  rbind (collect_param_strings params (dict_keys params) []) (fun param_strings =>
  let param_strings := list_sort param_strings in
  Ok (baseurl ++ connector ++ String.concat connector param_strings)%string).

(** The lexicographic order, for the library's merge sort. *)
Module StringOrder <: TotalLeBool.
Definition t := string.
Definition leb := String.leb.
Definition leb_total : forall a1 a2, leb a1 a2 = true \/ leb a2 a1 = true :=
  String.leb_total.
End StringOrder.

Module StringSort := Sort StringOrder.

(** A parameter rendered as "key_value". *)
Definition render_param (kv : string * string) : string :=
  (fst kv ++ "_" ++ snd kv)%string.

(** The reference definition of the request key, in the words of the
    specification: each parameter rendered as "key_value", the strings
    sorted lexicographically, joined with "_", and the base URL and a
    separator put in front.  The sort here is the library's merge sort. *)
Definition buildKey (baseUrl : string) (params : dict string) : string :=
  (baseUrl ++ "_"
   ++ String.concat "_" (StringSort.sort (map render_param params)))%string.

(** ** The [json] module of the Python standard library

    The Python values of the embedding: [None], booleans, integers,
    strings, lists, tuples and dicts with string keys.  The encoder
    accepts them all and writes a tuple as it writes a list; the decoder
    produces them all but tuples.
    Floats are not part of the embedding (numbers are integers), and a
    character is a code point below 256: a text with a fractional or
    exponent number, [NaN], [Infinity] or an escape of a code point
    above 255 is outside the model, and the decoder of the model rejects
    it where [json.loads] reads it.  Python's recursion limit and its
    limit on the digits of an integer are not part of the decoder and
    the encoder either.  A statement that depends on what the decoder
    makes of a text it has not written itself says so in its
    hypotheses: it takes the text the decoder reads, within the limits
    ([cache_state], [within_limits]). *)

#[local] Unset Elimination Schemes.

Inductive json : Type :=
| JNull
| JBool (b : bool)
| JInt (n : Z)
| JStr (s : string)
| JList (l : list json)
| JDict (d : dict json)
| JTuple (l : list json).

(** The dict invariant, at every dict inside the value. *)
Inductive wf_json : json -> Prop :=
| wf_JNull : wf_json JNull
| wf_JBool b : wf_json (JBool b)
| wf_JInt n : wf_json (JInt n)
| wf_JStr s : wf_json (JStr s)
| wf_JList l : Forall wf_json l -> wf_json (JList l)
| wf_JDict d :
    dict_wf d -> Forall (fun kv => wf_json (snd kv)) d -> wf_json (JDict d).

#[local] Set Elimination Schemes.

Module Json.

#[local] Open Scope string_scope.

Definition dquote : ascii := "034"%char.
Definition backslash : ascii := "092"%char.

(** *** Encoder: [json.dumps] with its defaults ([ensure_ascii=True],
    separators [", "] and [": "]). *)

Definition hex_digit (n : N) : ascii :=
  match n with
  | 0 => "0" | 1 => "1" | 2 => "2" | 3 => "3" | 4 => "4" | 5 => "5"
  | 6 => "6" | 7 => "7" | 8 => "8" | 9 => "9" | 10 => "a" | 11 => "b"
  | 12 => "c" | 13 => "d" | 14 => "e" | _ => "f"
  end%N%char.

(** [ESCAPE_DCT] and the [\uXXXX] fallback of [py_encode_basestring_ascii]:
    the quote, the backslash and every character outside [' '..'~']. *)
Definition escape_char (c : ascii) : string :=
  let n := N_of_ascii c in
  if Ascii.eqb c dquote then String backslash (String dquote EmptyString)
  else if Ascii.eqb c backslash then String backslash (String backslash EmptyString)
  else if (n =? 10)%N then "\n"
  else if (n =? 13)%N then "\r"
  else if (n =? 9)%N then "\t"
  else if (n =? 8)%N then "\b"
  else if (n =? 12)%N then "\f"
  else if ((32 <=? n) && (n <=? 126))%N%bool then String c EmptyString
  else String backslash (String "u" (String "0" (String "0"
         (String (hex_digit (n / 16)) (String (hex_digit (n mod 16)) EmptyString))))).

Fixpoint escape (s : string) : string :=
  match s with
  | EmptyString => EmptyString
  | String c s' => escape_char c ++ escape s'
  end.

Definition dumps_str (s : string) : string :=
  String dquote (escape s ++ String dquote EmptyString).

(** [int.__repr__]: decimal digits, a minus sign for a negative number. *)
Definition dumps_int (n : Z) : string :=
  match n with
  | Z0 => "0"
  | Zpos p => NilEmpty.string_of_uint (Pos.to_uint p)
  | Zneg p => String "-" (NilEmpty.string_of_uint (Pos.to_uint p))
  end.

(** The items of a list and of a dict after the opening bracket, for the
    encoder [dumps] of the values inside. *)
Section Items.

Variable dumps : json -> string.

Fixpoint dumps_list (l : list json) : string :=
  match l with
  | [] => "]"
  | x :: l' =>
      dumps x ++ match l' with [] => "]" | _ :: _ => ", " ++ dumps_list l' end
  end.

Fixpoint dumps_dict (d : list (string * json)) : string :=
  match d with
  | [] => "}"
  | kv :: d' =>
      dumps_str (fst kv) ++ ": " ++ dumps (snd kv)
      ++ match d' with [] => "}" | _ :: _ => ", " ++ dumps_dict d' end
  end.

End Items.

Fixpoint dumps (v : json) : string :=
  match v with
  | JNull => "null"
  | JBool true => "true"
  | JBool false => "false"
  | JInt n => dumps_int n
  | JStr s => dumps_str s
  | JList l => "[" ++ dumps_list dumps l
  | JDict d => "{" ++ dumps_dict dumps d
  | JTuple l => "[" ++ dumps_list dumps l
  end.

(** *** Decoder: [json.loads], after [json/decoder.py] and [json/scanner.py]. *)

Definition is_ws (c : ascii) : bool :=
  let n := N_of_ascii c in
  ((n =? 32) || (n =? 9) || (n =? 10) || (n =? 13))%N%bool.

(** [WHITESPACE.match(s, end).end()] *)
Fixpoint skip_ws (s : string) : string :=
  match s with
  | String c s' => if is_ws c then skip_ws s' else s
  | EmptyString => EmptyString
  end.

Definition hex_value (c : ascii) : option N :=
  let n := N_of_ascii c in
  if ((48 <=? n) && (n <=? 57))%N%bool then Some (n - 48)%N
  else if ((97 <=? n) && (n <=? 102))%N%bool then Some (n - 87)%N
  else if ((65 <=? n) && (n <=? 70))%N%bool then Some (n - 55)%N
  else None.

(** [BACKSLASH]: the one-letter escapes. *)
Definition unescape (c : ascii) : option ascii :=
  if Ascii.eqb c dquote then Some dquote
  else if Ascii.eqb c backslash then Some backslash
  else if Ascii.eqb c "/" then Some "/"%char
  else if Ascii.eqb c "b" then Some (ascii_of_N 8)
  else if Ascii.eqb c "f" then Some (ascii_of_N 12)
  else if Ascii.eqb c "n" then Some (ascii_of_N 10)
  else if Ascii.eqb c "r" then Some (ascii_of_N 13)
  else if Ascii.eqb c "t" then Some (ascii_of_N 9)
  else None.

Definition cons_char (c : ascii) (r : option (string * string))
  : option (string * string) :=
  match r with
  | Some (s, rest) => Some (String c s, rest)
  | None => None
  end.

(** [py_scanstring] in strict mode, from the character after the opening
    quote: the decoded string and the text after the closing quote. *)
Fixpoint scanstring (s : string) : option (string * string) :=
  match s with
  | EmptyString => None
  | String c s1 =>
      if Ascii.eqb c dquote then Some (EmptyString, s1)
      else if Ascii.eqb c backslash then
        match s1 with
        | EmptyString => None
        | String e s2 =>
            if Ascii.eqb e "u" then
              match s2 with
              | String h1 (String h2 (String h3 (String h4 s3))) =>
                  match hex_value h1, hex_value h2, hex_value h3, hex_value h4 with
                  | Some a, Some b, Some c, Some d =>
                      let uni := (((a * 16 + b) * 16 + c) * 16 + d)%N in
                      if (uni <? 256)%N then cons_char (ascii_of_N uni) (scanstring s3)
                      else None
                  | _, _, _, _ => None
                  end
              | _ => None
              end
            else
              match unescape e with
              | Some c' => cons_char c' (scanstring s2)
              | None => None
              end
        end
      else if (N_of_ascii c <? 32)%N then None
      else cons_char c (scanstring s1)
  end.

Definition is_digit (c : ascii) : bool :=
  let n := N_of_ascii c in ((48 <=? n) && (n <=? 57))%N%bool.

Definition digit_of (c : ascii) (u : Decimal.uint) : Decimal.uint :=
  match (N_of_ascii c - 48)%N with
  | 0 => Decimal.D0 u | 1 => Decimal.D1 u | 2 => Decimal.D2 u
  | 3 => Decimal.D3 u | 4 => Decimal.D4 u | 5 => Decimal.D5 u
  | 6 => Decimal.D6 u | 7 => Decimal.D7 u | 8 => Decimal.D8 u
  | _ => Decimal.D9 u
  end%N.

(** The longest run of digits at the head of [s], and what follows it. *)
Fixpoint scan_digits (s : string) : Decimal.uint * string :=
  match s with
  | String c s' =>
      if is_digit c then
        let (u, rest) := scan_digits s' in (digit_of c u, rest)
      else (Decimal.Nil, s)
  | EmptyString => (Decimal.Nil, EmptyString)
  end.

(** The integer part of [NUMBER_RE]: [0] or a digit from 1 to 9 and the
    digits after it. *)
Definition scan_intpart (s : string) : option (N * string) :=
  match s with
  | String c s' =>
      if Ascii.eqb c "0" then Some (0%N, s')
      else if is_digit c then
        let (u, rest) := scan_digits s in Some (N.of_uint u, rest)
      else None
  | EmptyString => None
  end.

Definition starts_with_digit (s : string) : bool :=
  match s with String c _ => is_digit c | EmptyString => false end.

(** Whether the fraction or the exponent group of [NUMBER_RE] matches at
    the head of [s]: the number is then a float. *)
Definition float_follows (s : string) : bool :=
  match s with
  | String c s' =>
      if Ascii.eqb c "." then starts_with_digit s'
      else if (Ascii.eqb c "e" || Ascii.eqb c "E")%bool then
        match s' with
        | String sg s'' =>
            if (Ascii.eqb sg "+" || Ascii.eqb sg "-")%bool
            then starts_with_digit s''
            else is_digit sg
        | EmptyString => false
        end
      else false
  | EmptyString => false
  end.

(** [match_number]; [None] also for a float, which the model has not. *)
Definition scan_number (s : string) : option (json * string) :=
  match s with
  | String c s' =>
      if Ascii.eqb c "-" then
        match scan_intpart s' with
        | Some (n, rest) =>
            if float_follows rest then None else Some (JInt (- Z.of_N n), rest)
        | None => None
        end
      else
        match scan_intpart s with
        | Some (n, rest) =>
            if float_follows rest then None else Some (JInt (Z.of_N n), rest)
        | None => None
        end
  | EmptyString => None
  end.

(** [s[idx:idx+len(lit)] == lit], and the text after it. *)
Fixpoint eat (lit s : string) : option string :=
  match lit with
  | EmptyString => Some s
  | String c lit' =>
      match s with
      | String c' s' => if Ascii.eqb c c' then eat lit' s' else None
      | EmptyString => None
      end
  end.

(** [dict(pairs)]: a repeated key keeps its first place and its last value. *)
Definition dict_of_pairs (pairs : list (string * json)) : dict json :=
  fold_left (fun d kv => dict_set d (fst kv) (snd kv)) pairs [].

(** [scan_once], with the loops of [JSONArray] and [JSONObject].  The
    fuel bounds the nesting and the number of items; [loads] gives the
    length of the text, which is enough. *)
Fixpoint scan_once (fuel : nat) (s : string) : option (json * string) :=
  match fuel with
  | O => None
  | S fuel' =>
      match s with
      | EmptyString => None
      | String c r =>
          if Ascii.eqb c dquote then
            match scanstring r with
            | Some (str, rest) => Some (JStr str, rest)
            | None => None
            end
          else if Ascii.eqb c "{" then
            match skip_ws r with
            | String c' r' =>
                if Ascii.eqb c' "}" then Some (JDict [], r')
                else if Ascii.eqb c' dquote then
                  match object_loop fuel' r' with
                  | Some (pairs, rest) => Some (JDict (dict_of_pairs pairs), rest)
                  | None => None
                  end
                else None
            | EmptyString => None
            end
          else if Ascii.eqb c "[" then
            match skip_ws r with
            | String c' r' =>
                if Ascii.eqb c' "]" then Some (JList [], r')
                else
                  match array_loop fuel' (String c' r') with
                  | Some (values, rest) => Some (JList values, rest)
                  | None => None
                  end
            | EmptyString => None
            end
          else if Ascii.eqb c "n" then
            match eat "ull" r with Some rest => Some (JNull, rest) | None => None end
          else if Ascii.eqb c "t" then
            match eat "rue" r with Some rest => Some (JBool true, rest) | None => None end
          else if Ascii.eqb c "f" then
            match eat "alse" r with Some rest => Some (JBool false, rest) | None => None end
          else scan_number s
      end
  end

with array_loop (fuel : nat) (s : string) : option (list json * string) :=
  match fuel with
  | O => None
  | S fuel' =>
      match scan_once fuel' s with
      | Some (value, rest) =>
          match skip_ws rest with
          | String c r =>
              if Ascii.eqb c "]" then Some ([value], r)
              else if Ascii.eqb c "," then
                match array_loop fuel' (skip_ws r) with
                | Some (values, rest') => Some (value :: values, rest')
                | None => None
                end
              else None
          | EmptyString => None
          end
      | None => None
      end
  end

with object_loop (fuel : nat) (s : string)
  : option (list (string * json) * string) :=
  match fuel with
  | O => None
  | S fuel' =>
      match scanstring s with
      | Some (key, rest) =>
          match skip_ws rest with
          | String c r =>
              if Ascii.eqb c ":" then
                match scan_once fuel' (skip_ws r) with
                | Some (value, rest1) =>
                    match skip_ws rest1 with
                    | String c1 r1 =>
                        if Ascii.eqb c1 "}" then Some ([(key, value)], r1)
                        else if Ascii.eqb c1 "," then
                          match skip_ws r1 with
                          | String c2 r2 =>
                              if Ascii.eqb c2 dquote then
                                match object_loop fuel' r2 with
                                | Some (pairs, rest2) =>
                                    Some ((key, value) :: pairs, rest2)
                                | None => None
                                end
                              else None
                          | EmptyString => None
                          end
                        else None
                    | EmptyString => None
                    end
                | None => None
                end
              else None
          | EmptyString => None
          end
      | None => None
      end
  end.

(** [JSONDecoder.decode]: leading whitespace, one value, trailing
    whitespace, and nothing more. *)
Definition loads (s : string) : option json :=
  match scan_once (S (String.length s)) (skip_ws s) with
  | Some (obj, rest) =>
      match skip_ws rest with
      | EmptyString => Some obj
      | String _ _ => None
      end
  | None => None
  end.

End Json.

(** ** The world: the cache file, the network, the terminal *)

Inductive file : Type :=
| Absent                      (* there is no such file *)
| Unreadable                  (* it is there and cannot be read as text *)
| Text (contents : string).

Inductive event : Type :=
| EvRead                                   (* [open(CACHE_FILENAME, 'r')] *)
| EvWrite (contents : string)              (* [fw.write(contents)] *)
| EvGet (url : string) (params : dict json) (* [requests.get(url, params)] *)
| EvPrint (line : string)
| EvInput (prompt : string).

(** The file system is the one file [CACHE_FILENAME], which can always be
    written.  [web] is what the remote servers answer, [None] when the
    request fails.  [log] lists the effects performed, oldest first. *)
Record world : Type := mkWorld {
  cache_file : file;
  web : string -> dict json -> option string;
  stdin : list string;
  log : list event
}.

Definition M (A : Type) : Type := world -> result A * world.

Definition ret {A} (a : A) : M A := fun w => (Ok a, w).

Definition raise {A} (e : exn) : M A := fun w => (Raise e, w).

Definition bind {A B} (c : M A) (k : A -> M B) : M B :=
  fun w =>
    match c w with
    | (Ok a, w') => k a w'
    | (Raise e, w') => (Raise e, w')
    end.

Definition lift {A} (r : result A) : M A := fun w => (r, w).

(** The element looked for in a page, or the exception of its absence. *)
Definition found {A} (o : option A) : M A :=
  match o with
  | Some a => ret a
  | None => raise ParseError
  end.

Notation "x <- c ;; k" := (bind c (fun x => k))
  (at level 61, c at next level, right associativity).
Notation "c ;; k" := (bind c (fun _ => k))
  (at level 61, right associativity).

(** [try: body except: handler], with a bare [except]. *)
Definition try_except {A} (body handler : M A) : M A :=
  fun w =>
    match body w with
    | (Ok a, w') => (Ok a, w')
    | (Raise _, w') => handler w'
    end.

Definition emit (e : event) (w : world) : world :=
  mkWorld (cache_file w) (web w) (stdin w) (log w ++ [e]).

(** [f = open(CACHE_FILENAME, 'r'); f.read()] *)
Definition read_file : M string :=
  fun w =>
    match cache_file w with
    | Absent => (Raise FileNotFoundError, emit EvRead w)
    | Unreadable => (Raise UnicodeDecodeError, emit EvRead w)
    | Text contents => (Ok contents, emit EvRead w)
    end.

(** [fw = open(CACHE_FILENAME, "w"); fw.write(contents); fw.close()] *)
Definition write_file (contents : string) : M unit :=
  fun w =>
    (Ok tt, mkWorld (Text contents) (web w) (stdin w) (log w ++ [EvWrite contents])).

Definition print (line : string) : M unit :=
  fun w => (Ok tt, emit (EvPrint line) w).

Definition input (prompt : string) : M string :=
  fun w =>
    match stdin w with
    | [] => (Raise EOFError, emit (EvInput prompt) w)
    | line :: rest =>
        (Ok line,
         mkWorld (cache_file w) (web w) rest (log w ++ [EvInput prompt]))
    end.

(** [requests.get(url, params).text] *)
Definition requests_get (url : string) (params : dict json) : M string :=
  fun w =>
    match web w url params with
    | Some text => (Ok text, emit (EvGet url params) w)
    | None => (Raise RequestException, emit (EvGet url params) w)
    end.

Definition json_loads (s : string) : M json :=
  match Json.loads s with
  | Some v => ret v
  | None => raise JSONDecodeError
  end.

(** *** Operations on Python values *)

(** [v.keys()] *)
Definition keys (v : json) : M (list string) :=
  match v with
  | JDict d => ret (dict_keys d)
  | _ => raise AttributeError
  end.

(** [k in ks] *)
Definition contains (ks : list string) (k : string) : bool :=
  existsb (String.eqb k) ks.

(** [v[k]] for a string [k] *)
Definition getitem (v : json) (k : string) : M json :=
  match v with
  | JDict d => lift (subscript d k)
  | _ => raise TypeError
  end.

(** [v[k] = x] for a string [k]; the updated object *)
Definition setitem (v : json) (k : string) (x : json) : M json :=
  match v with
  | JDict d => ret (JDict (dict_set d k x))
  | _ => raise TypeError
  end.

(** ** open_cache (lines 15-35) *)

Definition open_cache : M json :=
  try_except
    (cache_contents <- read_file ;;
     cache_dict <- json_loads cache_contents ;;
     ret cache_dict)
    (ret (JDict [])).

(** ** save_cache (lines 38-53) *)

Definition save_cache (cache_dict : json) : M unit :=
  let dumped_json_cache := Json.dumps cache_dict in
  write_file dumped_json_cache.

(** ** make_request_with_cache (lines 79-103) *)

Definition make_request_with_cache (baseurl : string) : M json :=
  CACHE_DICT <- open_cache ;;
  ks <- keys CACHE_DICT ;;
  if contains ks baseurl then
    print "Using CACHE" ;;
    getitem CACHE_DICT baseurl
  else
    print "Fetching" ;;
    text <- requests_get baseurl [] ;;
    CACHE_DICT <- setitem CACHE_DICT baseurl (JStr text) ;;
    save_cache CACHE_DICT ;;
    getitem CACHE_DICT baseurl.

(** ** Strings: [lower], [strip], [isnumeric], [int] *)

(** [str.lower] on the code points below 256: the letters A to Z, and the
    accented capitals U+00C0 to U+00DE but the multiplication sign U+00D7. *)
Definition lower_char (c : ascii) : ascii :=
  let n := N_of_ascii c in
  if ((65 <=? n) && (n <=? 90))%N%bool then ascii_of_N (n + 32)
  else if ((192 <=? n) && (n <=? 222) && negb (n =? 215))%N%bool
       then ascii_of_N (n + 32)
  else c.

Fixpoint lower (s : string) : string :=
  match s with
  | EmptyString => EmptyString
  | String c s' => String (lower_char c) (lower s')
  end.

(** [str.isspace] of one character below 256 *)
Definition is_space (c : ascii) : bool :=
  let n := N_of_ascii c in
  (((9 <=? n) && (n <=? 13)) || ((28 <=? n) && (n <=? 32))
   || (n =? 133) || (n =? 160))%N%bool.

Fixpoint lstrip (s : string) : string :=
  match s with
  | String c s' => if is_space c then lstrip s' else s
  | EmptyString => EmptyString
  end.

Fixpoint rstrip (s : string) : string :=
  match s with
  | EmptyString => EmptyString
  | String c s' =>
      match rstrip s' with
      | EmptyString => if is_space c then EmptyString else String c EmptyString
      | r => String c r
      end
  end.

Definition strip (s : string) : string := rstrip (lstrip s).

(** The numeric characters below 256: the digits, the superscripts
    U+00B2, U+00B3, U+00B9 and the fractions U+00BC, U+00BD, U+00BE. *)
Definition is_numeric_char (c : ascii) : bool :=
  let n := N_of_ascii c in
  (((48 <=? n) && (n <=? 57)) || (n =? 178) || (n =? 179) || (n =? 185)
   || ((188 <=? n) && (n <=? 190)))%N%bool.

Fixpoint all_chars (p : ascii -> bool) (s : string) : bool :=
  match s with
  | EmptyString => true
  | String c s' => (p c && all_chars p s')%bool
  end.

(** [str.isnumeric]: not empty and numeric characters only *)
Definition isnumeric (s : string) : bool :=
  match s with
  | EmptyString => false
  | String _ _ => all_chars is_numeric_char s
  end.

(** [int(s)] for a string on which [isnumeric] holds: the value of the
    decimal digits; a superscript or a fraction is no decimal digit.
    The interpreter's limit on the digits is not part of the function: a
    statement about a typed number bounds the length of the line by
    [int_max_str_digits]. *)
Definition py_int (s : string) : result Z :=
  if all_chars Json.is_digit s then
    Ok (Z.of_N (N.of_uint (fst (Json.scan_digits s))))
  else Raise ValueError.

(** ['-' * n] *)
Fixpoint dashes (n : nat) : string :=
  match n with
  | O => EmptyString
  | S n' => String "-" (dashes n')
  end.

(** ** NationalSite (lines 105-134) *)

Record NationalSite : Type := mkNationalSite {
  category : string;
  name : string;
  address : string;
  zipcode : string;
  phone : string
}.

Definition info (self : NationalSite) : string :=
  (name self ++ " (" ++ category self ++ ")" ++ ": " ++ address self ++ " "
   ++ zipcode self)%string.

Definition BASIC_URL : string := "https://www.nps.gov".

(** The texts [get_site_instance] reads off a site page. *)
Record site_page : Type := mkSitePage {
  hero_a : string;          (* the title container's [a] *)
  hero_span : string;       (* the title container's [span] *)
  addressLocality : string;
  addressRegion : string;
  postalCode : string;
  telephone : string
}.

Section Program.

(** [secrets.API_KEY] *)
Variable API_KEY : string.

(** What BeautifulSoup finds in a page; [None] where the page has not
    the structure the code expects, and the code raises.
    - [find_state_listing]: [(i.text, i['href'])] of every [a] of the
      state dropdown;
    - [find_park_listing]: for every park [div], [i.find_all('a')[0]['href']];
    - [find_site_page]: the texts of a site page. *)
Variable find_state_listing : json -> option (list (string * string)).
Variable find_park_listing : json -> option (list (option string)).
Variable find_site_page : json -> option site_page.

(** [repr] of a list or a dict, for the f-string of the places loop. *)
Variable py_repr : json -> string.

(** ** build_state_url_dict (lines 138-162) *)

Definition build_state_url_dict : M (dict string) :=
  response <- make_request_with_cache BASIC_URL ;;
  state_listing <- found (find_state_listing response) ;;
  ret (fold_left
         (fun state_url_dict i =>
            let state_name := strip (lower (fst i)) in
            let state_url := (BASIC_URL ++ snd i)%string in
            dict_set state_url_dict state_name state_url)
         state_listing []).

(** ** get_site_instance (lines 165-189) *)

Definition get_site_instance (site_url : string) : M NationalSite :=
  response1 <- make_request_with_cache site_url ;;
  page <- found (find_site_page response1) ;;
  let instance_name := strip (hero_a page) in
  let instance_category := strip (hero_span page) in
  let instance_address :=
    (strip (addressLocality page) ++ ", " ++ strip (addressRegion page))%string in
  let instance_ZIP_code := strip (postalCode page) in
  let instance_phone := strip (telephone page) in
  ret (mkNationalSite instance_category instance_name instance_address
         instance_ZIP_code instance_phone).

(** ** get_sites_for_state (lines 192-213) *)

Fixpoint park_loop (park_listing_parent : list (option string))
         (park_list : list NationalSite) : M (list NationalSite) :=
  match park_listing_parent with
  | [] => ret park_list
  | i :: rest =>
      href <- found i ;;
      let park_url := (BASIC_URL ++ href ++ "index.htm")%string in
      site <- get_site_instance park_url ;;
      park_loop rest (park_list ++ [site])
  end.

Definition get_sites_for_state (state_url : string) : M (list NationalSite) :=
  response2 <- make_request_with_cache state_url ;;
  park_listing_parent <- found (find_park_listing response2) ;;
  park_loop park_listing_parent [].

(** ** get_nearby_places (lines 216-241)

    [get_nearby_places_frame] runs the body and gives, with the value
    returned, the local [CACHE_DICT] as it is at the [return]. *)

Definition get_nearby_places_frame (site_object : NationalSite)
  : M (json * json) :=
  let BASE_URL := "http://www.mapquestapi.com/search/v2/radius" in
  let params : dict json :=
    [("key", JStr API_KEY); ("origin", JStr (zipcode site_object));
     ("radius", JInt 10); ("maxMatches", JInt 10);
     ("ambiguities", JStr "ignore"); ("outFormat", JStr "json")] in
  CACHE_DICT <- open_cache ;;
  ks <- keys CACHE_DICT ;;
  if contains ks (zipcode site_object) then
    print "Using Cache" ;;
    response3 <- getitem CACHE_DICT (zipcode site_object) ;;
    ret (response3, CACHE_DICT)
  else
    print "Fetching" ;;
    text <- requests_get BASE_URL params ;;
    response3 <- json_loads text ;;
    CACHE_DICT <- setitem CACHE_DICT (zipcode site_object) response3 ;;
    ret (response3, CACHE_DICT).

Definition get_nearby_places (site_object : NationalSite) : M json :=
  frame <- get_nearby_places_frame site_object ;;
  ret (fst frame).

(** ** The interactive loop (lines 244-297) *)

Definition quoted (s : string) : string :=
  String Json.dquote (s ++ String Json.dquote EmptyString).

Definition newline : string := String (ascii_of_N 10) EmptyString.

Definition state_prompt : string :=
  ("Enter a state name (e.g. Michigan, michigan) or " ++ quoted "exit" ++ ":")%string.

Definition site_prompt : string :=
  ("Choose the number for detail search or " ++ quoted "exit" ++ " or "
   ++ quoted "back" ++ newline ++ ":")%string.

(** [str(v)], as an f-string formats [v] *)
Definition py_str (v : json) : string :=
  match v with
  | JStr s => s
  | JInt n => Json.dumps_int n
  | JBool true => "True"
  | JBool false => "False"
  | JNull => "None"
  | _ => py_repr v
  end.

(** [v == ''] *)
Definition is_empty_str (v : json) : bool :=
  match v with
  | JStr EmptyString => true
  | _ => false
  end.

(** The items a [for] loop over [v] visits. *)
Definition iterate (v : json) : M (list json) :=
  match v with
  | JList l => ret l
  | JDict d => ret (map JStr (dict_keys d))
  | JTuple l => ret l
  | JStr s => ret (map (fun c => JStr (String c EmptyString)) (list_ascii_of_string s))
  | _ => raise TypeError
  end.

(** The loop of lines 257-258, from index [i]. *)
Fixpoint print_sites (sites_list : list NationalSite) (i : Z) : M unit :=
  match sites_list with
  | [] => ret tt
  | site :: rest =>
      print ("[ " ++ Json.dumps_int (i + 1) ++ " ] " ++ info site)%string ;;
      print_sites rest (i + 1)%Z
  end.

(** One round of the loop of lines 279-293. *)
Definition print_place (nearbyplaces : json) : M unit :=
  name <- getitem nearbyplaces "name" ;;
  fields <- getitem nearbyplaces "fields" ;;
  a <- getitem fields "address" ;;
  address <- (if is_empty_str a then ret (JStr "no address")
              else fields <- getitem nearbyplaces "fields" ;;
                   getitem fields "address") ;;
  fields <- getitem nearbyplaces "fields" ;;
  c <- getitem fields "city" ;;
  city <- (if is_empty_str c then ret (JStr "no city")
           else fields <- getitem nearbyplaces "fields" ;;
                getitem fields "address") ;;
  fields <- getitem nearbyplaces "fields" ;;
  g <- getitem fields "group_sic_code_name" ;;
  category <- (if is_empty_str g then ret (JStr "no category")
               else fields <- getitem nearbyplaces "fields" ;;
                    getitem fields "group_sic_code_name") ;;
  print ("- " ++ py_str name ++ " (" ++ py_str category ++ "): "
         ++ py_str address ++ ", " ++ py_str city)%string.

Fixpoint print_places (places : list json) : M unit :=
  match places with
  | [] => ret tt
  | nearbyplaces :: rest => print_place nearbyplaces ;; print_places rest
  end.

(** The branch of lines 273-293: the site of number [n] is shown. *)
Definition show_site (sites_list : list NationalSite) (n : Z) : M unit :=
  instance <- (match nth_error sites_list (Z.to_nat (n - 1)) with
               | Some site => ret site
               | None => raise IndexError
               end) ;;
  response <- get_nearby_places instance ;;
  nearbyplaces <- getitem response "searchResults" ;;
  print (dashes 34) ;;
  print ("Places near " ++ name instance)%string ;;
  print (dashes 34) ;;
  places <- iterate nearbyplaces ;;
  print_places places.

(** The inner [while True] (lines 264-297); the value is [temp] at the
    [break]. *)
Fixpoint site_loop (fuel : nat) (sites_list : list NationalSite) (temp : Z)
  : M Z :=
  match fuel with
  | O => raise OutOfFuel
  | S fuel' =>
      line <- input site_prompt ;;
      let input_number := lower line in
      if String.eqb input_number "exit" then
        ret 1%Z
      else if String.eqb input_number "back" then
        ret temp
      else if isnumeric input_number then
        n <- lift (py_int input_number) ;;
        if ((0 <? n) && (n <=? Z.of_nat (List.length sites_list)))%Z%bool then
          n <- lift (py_int input_number) ;;
          show_site sites_list n ;;
          site_loop fuel' sites_list temp
        else
          print "[Error] Invalid input" ;;
          site_loop fuel' sites_list temp
      else
        print ("[Error] Enter proper state name " ++ newline)%string ;;
        site_loop fuel' sites_list temp
  end.

(** The outer [while True] (lines 246-297). *)
Fixpoint state_loop (fuel : nat) (states_dict : dict string) : M unit :=
  match fuel with
  | O => raise OutOfFuel
  | S fuel' =>
      line <- input state_prompt ;;
      let State := lower line in
      if String.eqb State "exit" then
        ret tt
      else if contains (dict_keys states_dict) (lower State) then
        state_url <- lift (subscript states_dict State) ;;
        sites_list <- get_sites_for_state state_url ;;
        print (dashes 34) ;;
        print ("List of national sites in " ++ lower State)%string ;;
        print (dashes 34) ;;
        print_sites sites_list 0 ;;
        temp <- site_loop fuel' sites_list 0 ;;
        state_loop fuel' states_dict
      else
        print "[Error]: Enter proper state name" ;;
        state_loop fuel' states_dict
  end.

(** The [__main__] block; every round of either loop reads a line, so the
    length of the input bounds the rounds. *)
Definition main : M unit :=
  states_dict <- build_state_url_dict ;;
  fun w => state_loop (S (List.length (stdin w))) states_dict w.

End Program.

(** ** Vocabulary of the statements *)

(** The order of [list.sort()] on strings. *)
Definition str_le (a b : string) : Prop := String.leb a b = true.

(** A text that cannot continue a number: what follows a dumped value. *)
Definition delimited (rest : string) : Prop :=
  Json.starts_with_digit rest = false /\ Json.float_follows rest = false.

(** How a dumped value starts: the character that [scan_once] dispatches
    on, which is no whitespace and closes nothing. *)
Definition starts_value (s : string) : Prop :=
  match s with
  | String c _ => Json.is_ws c = false /\ Ascii.eqb c "]" = false
  | EmptyString => False
  end.

(** The decoder reads the dump of [x] back as [x], and stops after it. *)
Definition reads_back (x : json) : Prop :=
  forall fuel rest,
    String.length (Json.dumps x) <= fuel -> delimited rest ->
    Json.scan_once fuel (Json.dumps x ++ rest) = Some (x, rest).

(** The dumped items of a dict after the quote that opens the first key:
    where [object_loop] starts. *)
Definition dict_body (d : dict json) : string :=
  match Json.dumps_dict Json.dumps d with
  | String _ r => r
  | EmptyString => EmptyString
  end.

(** The value [open_cache] makes of the cache file. *)
Definition loaded (f : file) : json :=
  match f with
  | Text contents =>
      match Json.loads contents with
      | Some v => v
      | None => JDict []
      end
  | Absent | Unreadable => JDict []
  end.

(** The events a run from [w] to [w'] has added to the log. *)
Definition new_events (w w' : world) : list event :=
  skipn (List.length (log w)) (log w').

(** A web on which one page exists, and a machine with no cache file yet. *)
Definition example_web (url : string) (params : dict json) : option string :=
  if String.eqb url "https://example.test/a" then Some "BODY" else None.

Definition fresh_world : world := mkWorld Absent example_web [] [].

(** The spec's scenario: the store [{"https://example.test/a": "BODY"}]
    on disk. *)
Definition fabricated_world : world :=
  mkWorld (Text (Json.dumps (JDict [("https://example.test/a", JStr "BODY")])))
          (fun _ _ => None) [] [].

(** [BASE_URL] and [params] of [get_nearby_places]. *)
Definition places_url : string := "http://www.mapquestapi.com/search/v2/radius".

Definition places_params (API_KEY : string) (site : NationalSite) : dict json :=
  [("key", JStr API_KEY); ("origin", JStr (zipcode site));
   ("radius", JInt 10); ("maxMatches", JInt 10);
   ("ambiguities", JStr "ignore"); ("outFormat", JStr "json")].

Definition isle_royale : NationalSite :=
  mkNationalSite "National Park" "Isle Royale" "Houghton, MI" "49931"
                 "(906) 482-0984".

(** The places API answering one and the same document. *)
Definition places_world : world :=
  mkWorld Absent
          (fun _ _ => Some (Json.dumps (JDict [("searchResults", JList [])])))
          [] [].

(** A site whose pages always have the expected structure: one state,
    with one park. *)
Definition demo_state_listing (_ : json) : option (list (string * string)) :=
  Some [("Michigan", "/state/mi/index.htm")].

Definition demo_park_listing (_ : json) : option (list (option string)) :=
  Some [Some "/isro/"].

Definition demo_site_page (_ : json) : option site_page :=
  Some (mkSitePage "Isle Royale" "National Park" "Houghton" "MI" "49931"
                 "(906) 482-0984").

Definition demo_world (lines : list string) : world :=
  mkWorld Absent
          (fun _ _ => Some (Json.dumps (JDict [("searchResults", JList [])])))
          lines [].

Definition demo_main : M unit :=
  main "KEY" demo_state_listing demo_park_listing demo_site_page
       (fun _ => EmptyString).

(** The last thing the program did. *)
Definition last_event (w : world) : option event :=
  match rev (log w) with
  | e :: _ => Some e
  | [] => None
  end.

(** The superscript two, a numeric character that is no decimal digit. *)
Definition superscript_two : string := String (ascii_of_N 178) EmptyString.

(** A computation that reads no line and raises no [OutOfFuel]. *)
Definition keeps_stdin {A} (c : M A) : Prop :=
  forall w, fst (c w) <> Raise OutOfFuel /\ stdin (snd (c w)) = stdin w.

(** What the decoder has read it reads with any fuel from the number of
    characters read on; here for its three loops together. *)
Definition fuel_by_length {A} (scan : nat -> string -> option (A * string))
           (fuel : nat) : Prop :=
  forall s a r,
    scan fuel s = Some (a, r) ->
    String.length r < String.length s
    /\ forall fuel', String.length s - String.length r <= fuel' ->
                     scan fuel' s = Some (a, r).

(** [u] is a key of the store on disk, with the value [body]. *)
Definition cached (w : world) (u : string) (body : json) : Prop :=
  exists store,
    loaded (cache_file w) = JDict store /\ dict_get store u = Some body.

(** Every entry of the store of [w] is an entry of the store of [w']. *)
Definition cache_le (w w' : world) : Prop :=
  forall u body, cached w u body -> cached w' u body.

(** An event that is neither a request nor a write of the cache file. *)
Definition local_event (e : event) : bool :=
  match e with
  | EvGet _ _ | EvWrite _ => false
  | EvRead | EvPrint _ | EvInput _ => true
  end.

(** A run from [w] to [w'] that left the cache file alone and sent no
    request. *)
Definition offline (w w' : world) : Prop :=
  cache_file w' = cache_file w
  /\ exists es, log w' = log w ++ es /\ forallb local_event es = true.

(** A computation whose result, once it has returned it, it returns again
    in every world that has kept the cache, and offline. *)
Definition replays {A} (c : M A) : Prop :=
  forall w r w1,
    c w = (Ok r, w1) ->
    cache_le w w1
    /\ forall w2, cache_le w1 w2 -> exists w2', c w2 = (Ok r, w2') /\ offline w2 w2'.

(** No separator in the string. *)
Fixpoint no_sep (s : string) : bool :=
  match s with
  | EmptyString => true
  | String c s' => (negb (Ascii.eqb c "_") && no_sep s')%bool
  end.

(** No separator in any key or value of the parameters. *)
Definition plain_params (P : dict string) : Prop :=
  forall kv, In kv P -> no_sep (fst kv) = true /\ no_sep (snd kv) = true.

(** The end of the text or a separator: what follows a key or a value. *)
Definition at_sep (t : string) : Prop :=
  match t with
  | EmptyString => True
  | String c _ => c = "_"%char
  end.

(** The joined parameters after the first one: nothing, or a separator
    and the rest. *)
Definition joined_tail (l : list string) : string :=
  match l with
  | [] => EmptyString
  | _ :: _ => ("_" ++ String.concat "_" l)%string
  end.

(** The line of the listing for the site at place [i], counted from 0. *)
Definition listing_line (i : nat) (site : NationalSite) : string :=
  ("[ " ++ Json.dumps_int (Z.of_nat i + 1) ++ " ] " ++ info site)%string.

(** The lines of the listing of [sites_list], whose first site is at
    place [i]. *)
Fixpoint listing_lines (i : nat) (sites_list : list NationalSite) : list string :=
  match sites_list with
  | [] => []
  | site :: rest => listing_line i site :: listing_lines (S i) rest
  end.

(** The key that [build_state_url_dict] makes of the text of an anchor. *)
Definition state_key (text : string) : string := strip (lower text).

(** The anchor that decides the URL of the state [k]: the last one of the
    listing whose text gives the key [k]. *)
Definition state_anchor (listing : list (string * string)) (k : string)
  : option (string * string) :=
  find (fun i => String.eqb k (state_key (fst i))) (rev listing).

(** A text that does not begin with white space. *)
Definition starts_black (s : string) : Prop :=
  match s with
  | EmptyString => True
  | String c _ => is_space c = false
  end.

(** The site [get_site_instance] makes of the texts of a page. *)
Definition site_of_page (page : site_page) : NationalSite :=
  mkNationalSite (strip (hero_span page)) (strip (hero_a page))
    (strip (addressLocality page) ++ ", " ++ strip (addressRegion page))
    (strip (postalCode page)) (strip (telephone page)).

(** The line shown for a place: the city slot never shows the city. *)
Definition place_line (py_repr : json -> string) (name a c g : json)
  : string :=
  ("- " ++ py_str py_repr name
   ++ " (" ++ (if is_empty_str g then "no category" else py_str py_repr g)
   ++ "): " ++ (if is_empty_str a then "no address" else py_str py_repr a)
   ++ ", " ++ (if is_empty_str c then "no city" else py_str py_repr a))%string.

(** The page of the one state of the demo site, and its dict of states. *)
Definition michigan_url : string := "https://www.nps.gov/state/mi/index.htm".

Definition demo_states : dict string := [("michigan", michigan_url)].


(** The disk of [w] on a machine without network, at a fresh terminal. *)
Definition unplugged (w : world) : world :=
  mkWorld (cache_file w) (fun _ _ => None) [] [].

(** A state page whose second park has no anchor. *)
Definition broken_park_listing (_ : json) : option (list (option string)) :=
  Some [Some "/isro/"; None].

(** A place as the places API describes it, with no category. *)
Definition cafe : dict json :=
  [("name", JStr "Cafe");
   ("fields", JDict [("address", JStr "1 Main St"); ("city", JStr "Houghton");
                     ("group_sic_code_name", JStr EmptyString)])].

(** A cache file with the places of the postal code 49931, and one that
    holds a JSON list. *)
Definition places_cached_world : world :=
  mkWorld (Text (Json.dumps (JDict [("49931", JDict [("searchResults", JList [])])])))
          (fun _ _ => None) [] [].

Definition list_cache_world : world :=
  mkWorld (Text "[]") (fun _ _ => None) [] [].


(** The places API answering that it has found nothing. *)
Definition no_results_world : world :=
  mkWorld Absent (fun _ _ => Some (Json.dumps (JDict [("resultsCount", JInt 0)])))
          [] [].

(** The limits of the interpreter, as CPython 3.11 sets them: [int] and
    [str] convert at most 4300 digits, and the scanner and the encoder of
    [json] raise [RecursionError] a little under 1000 levels of nesting.
    The statements that depend on a limit stay within
    [int_max_str_digits] digits and [nesting_limit] levels. *)
Definition int_max_str_digits : nat := 4300.



#[local] Unset Elimination Schemes.


#[local] Set Elimination Schemes.





(** The parks of [listing] fetched one after the other from the world
    [w]: each site is what [get_site_instance] returns for the address of
    its park in the world the fetch before it has left, and [w'] is the
    world after the last fetch. *)
Inductive parks_fetched (find_site_page : json -> option site_page)
  : list (option string) -> world -> list NationalSite -> world -> Prop :=
| parks_fetched_nil w : parks_fetched find_site_page [] w [] w
| parks_fetched_cons href rest w site w1 sites w2 :
    get_site_instance find_site_page (BASIC_URL ++ href ++ "index.htm") w
    = (Ok site, w1) ->
    parks_fetched find_site_page rest w1 sites w2 ->
    parks_fetched find_site_page (Some href :: rest) w (site :: sites) w2.


(** * Properties *)

(** ** The order on strings *)

Lemma str_le_trans (a b c : string) : str_le a b -> str_le b c -> str_le a c.
Proof.
  unfold str_le, String.leb.
  revert b c; induction a as [|x a IH]; intros [|y b] [|z c]; simpl;
    try easy.
  unfold Ascii.compare.
  destruct (N.compare_spec (N_of_ascii x) (N_of_ascii y)) as [Hxy|Hxy|Hxy];
    destruct (N.compare_spec (N_of_ascii y) (N_of_ascii z)) as [Hyz|Hyz|Hyz];
    destruct (N.compare_spec (N_of_ascii x) (N_of_ascii z)) as [Hxz|Hxz|Hxz];
    try easy; try lia.
  apply IH.
Qed.

Lemma str_le_antisym (a b : string) : str_le a b -> str_le b a -> a = b.
Proof. unfold str_le; intros; now apply String.leb_antisym. Qed.

Lemma str_le_total (a b : string) : str_le a b \/ str_le b a.
Proof. apply String.leb_total. Qed.

(** Two sorted arrangements of the same strings are the same list. *)
Lemma sorted_perm_unique (l1 l2 : list string) :
  StronglySorted str_le l1 -> StronglySorted str_le l2 ->
  Permutation l1 l2 -> l1 = l2.
Proof.
  intros S1; revert l2; induction S1 as [|x l1 S1 IH Hx]; intros l2 S2 P.
  - now apply Permutation_nil in P.
  - destruct S2 as [|y l2 S2 Hy].
    + apply Permutation_sym, Permutation_nil in P; discriminate.
    + assert (x = y) as ->.
      { assert (Ix : In x (y :: l2)) by (eapply Permutation_in; [exact P | now left]).
        assert (Iy : In y (x :: l1))
          by (eapply Permutation_in; [exact (Permutation_sym P) | now left]).
        destruct Ix as [->|Ix]; [reflexivity|].
        destruct Iy as [->|Iy]; [reflexivity|].
        rewrite Forall_forall in Hx, Hy.
        apply str_le_antisym; auto. }
      f_equal. apply IH; [assumption|].
      now apply Permutation_cons_inv in P.
Qed.

(** ** [list_sort] sorts *)

Lemma insert_sorted_perm (x : string) (l : list string) :
  Permutation (x :: l) (insert_sorted x l).
Proof.
  induction l as [|y l IH]; simpl; [reflexivity|].
  destruct (String.leb x y); [reflexivity|].
  rewrite perm_swap. now constructor.
Qed.

Lemma list_sort_perm (l : list string) : Permutation l (list_sort l).
Proof.
  induction l as [|x l IH]; simpl; [constructor|].
  rewrite <- insert_sorted_perm. now constructor.
Qed.

Lemma insert_sorted_sorted (x : string) (l : list string) :
  StronglySorted str_le l -> StronglySorted str_le (insert_sorted x l).
Proof.
  induction 1 as [|y l S IH Hy]; simpl.
  - repeat constructor.
  - destruct (String.leb x y) eqn:E.
    + constructor; [now constructor|].
      constructor; [exact E|].
      eapply Forall_impl; [|exact Hy].
      intros z Hz. now apply str_le_trans with y.
    + constructor; [exact IH|].
      eapply Permutation_Forall; [apply insert_sorted_perm|].
      constructor; [|exact Hy].
      destruct (str_le_total x y) as [H|H]; [unfold str_le in H; congruence | exact H].
Qed.

Lemma list_sort_sorted (l : list string) : StronglySorted str_le (list_sort l).
Proof.
  induction l as [|x l IH]; simpl; [constructor|].
  now apply insert_sorted_sorted.
Qed.

(** [list_sort] and the library's merge sort give the same list. *)
Lemma list_sort_mergesort (l : list string) : list_sort l = StringSort.sort l.
Proof.
  apply sorted_perm_unique.
  - apply list_sort_sorted.
  - apply StringSort.StronglySorted_sort.
    intros a b c. apply str_le_trans.
  - rewrite <- list_sort_perm. apply StringSort.Permuted_sort.
Qed.

Lemma list_sort_permutation (l1 l2 : list string) :
  Permutation l1 l2 -> list_sort l1 = list_sort l2.
Proof.
  intros P. apply sorted_perm_unique; try apply list_sort_sorted.
  now rewrite <- !list_sort_perm.
Qed.

(** ** Dictionaries *)

Lemma dict_get_head {V} (k : string) (v : V) (d : dict V) :
  dict_get ((k, v) :: d) k = Some v.
Proof. simpl. now rewrite String.eqb_refl. Qed.

Lemma dict_get_not_in {V} (d : dict V) (k : string) :
  ~ In k (dict_keys d) -> dict_get d k = None.
Proof.
  induction d as [|[k' v] d IH]; simpl; [reflexivity|].
  intros H. destruct (String.eqb_spec k k') as [->|N].
  - exfalso; apply H; now left.
  - apply IH. intros I; apply H; now right.
Qed.

Lemma dict_get_in {V} (d : dict V) (k : string) (v : V) :
  dict_wf d -> In (k, v) d -> dict_get d k = Some v.
Proof.
  unfold dict_wf.
  induction d as [|[k' v'] d IH]; simpl; [easy|].
  intros W [E|I].
  - inversion E; subst. now rewrite String.eqb_refl.
  - inversion W as [|? ? Hn W']; subst.
    destruct (String.eqb_spec k k') as [->|N]; [|now apply IH].
    exfalso; apply Hn. change k' with (fst (k', v)). now apply in_map.
Qed.

(** ** construct_unique_key *)

(** The loop of [construct_unique_key] never raises: it renders the items
    of the dict in their order. *)
Lemma collect_param_strings_items (params d : dict string) (acc : list string) :
  (forall kv, In kv d -> dict_get params (fst kv) = Some (snd kv)) ->
  collect_param_strings params (dict_keys d) acc
  = Ok (acc ++ map render_param d).
Proof.
  revert acc; induction d as [|[k v] d IH]; intros acc H; simpl.
  - now rewrite List.app_nil_r.
  - pose proof (H (k, v) (or_introl eq_refl)) as Hk; simpl in Hk.
    unfold subscript. rewrite Hk. simpl.
    rewrite IH by (intros kv I; apply H; now right).
    now rewrite <- List.app_assoc.
Qed.

Lemma construct_unique_key_items (baseurl : string) (params : dict string) :
  dict_wf params ->
  construct_unique_key baseurl params
  = Ok (baseurl ++ "_"
        ++ String.concat "_" (list_sort (map render_param params)))%string.
Proof.
  intros W. unfold construct_unique_key.
  rewrite collect_param_strings_items with (d := params).
  - reflexivity.
  - intros [k v] I. now apply dict_get_in.
Qed.

Lemma dict_wf_perm {V} (d1 d2 : dict V) :
  Permutation d1 d2 -> dict_wf d1 -> dict_wf d2.
Proof.
  unfold dict_wf, dict_keys. intros P.
  apply Permutation_NoDup. now apply Permutation_map.
Qed.

Ltac solve_dict_wf :=
  unfold dict_wf; simpl; repeat constructor; simpl; intuition discriminate.

(** C3: the key does not depend on the order in which the parameters were
    inserted.  For a base URL [u] and two dicts [P1], [P2] holding the
    same key/value pairs in any order, [construct_unique_key] returns
    (without raising) one and the same key. *)
Theorem construct_unique_key_order_independent
        (u : string) (P1 P2 : dict string) :
  dict_wf P1 -> Permutation P1 P2 ->
  exists key, construct_unique_key u P1 = Ok key
              /\ construct_unique_key u P2 = Ok key.
Proof.
  intros W1 P.
  assert (W2 : dict_wf P2) by (eapply dict_wf_perm; eassumption).
  eexists. split.
  - now apply construct_unique_key_items.
  - rewrite construct_unique_key_items by assumption.
    now rewrite (list_sort_permutation (Permutation_map render_param P)).
Qed.

Lemma construct_unique_key_order_independent_witness :
  exists key,
    construct_unique_key "https://example.test/a" [("b", "2"); ("a", "1")] = Ok key
    /\ construct_unique_key "https://example.test/a" [("a", "1"); ("b", "2")] = Ok key.
Proof.
  apply (@construct_unique_key_order_independent
           "https://example.test/a" [("b", "2"); ("a", "1")] [("a", "1"); ("b", "2")]).
  - solve_dict_wf.
  - apply perm_swap.
Defined.

(** C7: [construct_unique_key] computes the reference key [buildKey]:
    every parameter rendered as "key_value", these strings sorted
    lexicographically and joined with "_", after the base URL and a "_". *)
Theorem construct_unique_key_is_buildKey (u : string) (P : dict string) :
  dict_wf P -> construct_unique_key u P = Ok (buildKey u P).
Proof.
  intros W. rewrite construct_unique_key_items by assumption.
  unfold buildKey. now rewrite list_sort_mergesort.
Qed.

Lemma construct_unique_key_is_buildKey_witness :
  construct_unique_key "http://api.test" [("origin", "49931"); ("key", "K")]
  = Ok "http://api.test_key_K_origin_49931".
Proof.
  apply (@construct_unique_key_is_buildKey
           "http://api.test" [("origin", "49931"); ("key", "K")]).
  solve_dict_wf.
Defined.

(** C4 fails on the code: the separator of the pairs is also the
    separator inside a pair, and may occur in keys and values, so
    different parameter sets can give one key.  At every base URL the
    one-parameter dicts [{"a": "b_c"}] and [{"a_b": "c"}] collide, and so
    do [{"a": "b", "c": "d"}] and [{"a": "b_c_d"}], whose rendered
    parameters are different lists. *)
Theorem construct_unique_key_collision :
  let P1 : dict string := [("a", "b_c")] in
  let P2 : dict string := [("a_b", "c")] in
  let Q1 : dict string := [("a", "b"); ("c", "d")] in
  let Q2 : dict string := [("a", "b_c_d")] in
  (dict_wf P1 /\ dict_wf P2 /\ ~ Permutation P1 P2
   /\ forall u, construct_unique_key u P1 = construct_unique_key u P2)
  /\ (dict_wf Q1 /\ dict_wf Q2 /\ ~ Permutation Q1 Q2
      /\ map render_param Q1 <> map render_param Q2
      /\ forall u, construct_unique_key u Q1 = construct_unique_key u Q2).
Proof.
  cbv zeta. repeat split; try solve_dict_wf; try discriminate.
  - intros P. apply Permutation_length_1_inv in P. discriminate.
  - intros P. apply Permutation_length in P. discriminate.
Qed.

(** ** The codec: strings *)

Lemma append_assoc (a b c : string) : ((a ++ b) ++ c = a ++ (b ++ c))%string.
Proof. induction a as [|x a IH]; simpl; [reflexivity | now rewrite IH]. Qed.

Lemma append_length (a b : string) :
  String.length (a ++ b) = String.length a + String.length b.
Proof. induction a as [|x a IH]; simpl; [reflexivity | now rewrite IH]. Qed.

(** The decoder reads an escaped character back as the character. *)
Lemma scanstring_escape_char (c : ascii) (t : string) :
  Json.scanstring (Json.escape_char c ++ t) = Json.cons_char c (Json.scanstring t).
Proof.
  destruct c as [b0 b1 b2 b3 b4 b5 b6 b7].
  destruct b0, b1, b2, b3, b4, b5, b6, b7; reflexivity.
Qed.

Lemma scanstring_escape (s rest : string) :
  Json.scanstring (Json.escape s ++ String Json.dquote rest) = Some (s, rest).
Proof.
  induction s as [|c s IH]; simpl; [reflexivity|].
  now rewrite append_assoc, scanstring_escape_char, IH.
Qed.

(** ** The codec: integers *)

Lemma scan_digits_string_of_uint (u : Decimal.uint) (rest : string) :
  Json.starts_with_digit rest = false ->
  Json.scan_digits (NilEmpty.string_of_uint u ++ rest) = (u, rest).
Proof.
  intros H. induction u; simpl; try (rewrite IHu; reflexivity).
  destruct rest as [|c r]; simpl in *; [reflexivity | now rewrite H].
Qed.

(** The digits of a positive number start with a digit that is not 0. *)
Lemma to_uint_head (p : positive) :
  match Pos.to_uint p with
  | Decimal.Nil | Decimal.D0 _ => False
  | _ => True
  end.
Proof.
  pose proof (DecimalPos.Unsigned.to_of (Pos.to_uint p)) as E.
  rewrite DecimalPos.Unsigned.of_to in E. simpl in E.
  pose proof (DecimalPos.Unsigned.to_uint_nonnil p) as Hn.
  pose proof (DecimalPos.Unsigned.to_uint_nonzero p) as Hz.
  destruct (Pos.to_uint p) as [|u| | | | | | | | | ] eqn:Eu; try exact I.
  - now apply Hn.
  - rewrite unorm_D0 in E.
    assert (Hu : u = Decimal.Nil \/ u <> Decimal.Nil)
      by (destruct u; [now left | right; discriminate ..]).
    destruct Hu as [->|Hu]; [now apply Hz|].
    apply nb_digits_unorm in Hu. rewrite <- E in Hu. simpl in Hu. lia.
Qed.

Lemma scan_intpart_to_uint (p : positive) (rest : string) :
  Json.starts_with_digit rest = false ->
  Json.scan_intpart (NilEmpty.string_of_uint (Pos.to_uint p) ++ rest)
  = Some (Npos p, rest).
Proof.
  intros H.
  pose proof (to_uint_head p) as Hh.
  pose proof (scan_digits_string_of_uint (Pos.to_uint p) rest H) as E.
  pose proof (DecimalPos.Unsigned.of_to p) as V.
  unfold Json.scan_intpart.
  destruct (Pos.to_uint p) as [|u|u|u|u|u|u|u|u|u|u]; try contradiction;
    simpl in E |- *; rewrite E; simpl; now rewrite <- V.
Qed.

Lemma scan_number_dumps_int (n : Z) (rest : string) :
  delimited rest ->
  Json.scan_number (Json.dumps_int n ++ rest) = Some (JInt n, rest).
Proof.
  intros [Hd Hf]. destruct n as [|p|p]; simpl.
  - now rewrite Hf.
  - pose proof (scan_intpart_to_uint p rest Hd) as E.
    pose proof (to_uint_head p) as Hh.
    unfold Json.scan_number. rewrite E, Hf.
    destruct (Pos.to_uint p); try contradiction; reflexivity.
  - now rewrite scan_intpart_to_uint, Hf.
Qed.

Lemma dumps_int_start (n : Z) :
  exists c s', Json.dumps_int n = String c s'
               /\ (c = "-"%char \/ Json.is_digit c = true).
Proof.
  destruct n as [|p|p]; simpl.
  - exists "0"%char, EmptyString; auto.
  - pose proof (to_uint_head p) as Hh.
    destruct (Pos.to_uint p); try contradiction; simpl; eauto.
  - eauto.
Qed.

Lemma scan_once_number (fuel : nat) (c : ascii) (s : string) :
  c = "-"%char \/ Json.is_digit c = true ->
  Json.scan_once (S fuel) (String c s) = Json.scan_number (String c s).
Proof.
  intros H. destruct c as [b0 b1 b2 b3 b4 b5 b6 b7].
  destruct b0, b1, b2, b3, b4, b5, b6, b7; try reflexivity;
    destruct H; discriminate.
Qed.

Lemma digit_starts_value (c : ascii) (s : string) :
  c = "-"%char \/ Json.is_digit c = true -> starts_value (String c s).
Proof.
  intros H. destruct c as [b0 b1 b2 b3 b4 b5 b6 b7].
  destruct b0, b1, b2, b3, b4, b5, b6, b7; try (split; reflexivity);
    destruct H; discriminate.
Qed.

(** ** The codec: values *)

Section JsonInduction.
Variable P : json -> Prop.
Hypothesis HNull : P JNull.
Hypothesis HBool : forall b, P (JBool b).
Hypothesis HInt : forall n, P (JInt n).
Hypothesis HStr : forall s, P (JStr s).
Hypothesis HList : forall l, Forall P l -> P (JList l).
Hypothesis HDict : forall d, Forall (fun kv => P (snd kv)) d -> P (JDict d).
Hypothesis HTuple : forall l, Forall P l -> P (JTuple l).

Fixpoint json_induction (v : json) : P v :=
  match v with
  | JNull => HNull
  | JBool b => HBool b
  | JInt n => HInt n
  | JStr s => HStr s
  | JList l =>
      HList ((fix all (l : list json) : Forall P l :=
                match l with
                | [] => Forall_nil P
                | x :: l' => Forall_cons x (json_induction x) (all l')
                end) l)
  | JDict d =>
      HDict ((fix all (d : list (string * json))
              : Forall (fun kv => P (snd kv)) d :=
                match d with
                | [] => Forall_nil _
                | kv :: d' =>
                    Forall_cons kv (json_induction (snd kv)) (all d')
                end) d)
  | JTuple l =>
      HTuple ((fix all (l : list json) : Forall P l :=
                 match l with
                 | [] => Forall_nil P
                 | x :: l' => Forall_cons x (json_induction x) (all l')
                 end) l)
  end.
End JsonInduction.

Lemma dumps_starts_value (v : json) : starts_value (Json.dumps v).
Proof.
  destruct v as [|[|]|n|s|l|d|l]; simpl; auto.
  destruct (dumps_int_start n) as (c & s' & -> & H).
  now apply digit_starts_value.
Qed.

Lemma skip_ws_starts_value (s : string) : starts_value s -> Json.skip_ws s = s.
Proof. destruct s as [|c s]; simpl; [easy|]. now intros [-> _]. Qed.

Lemma starts_value_app (s r : string) : starts_value s -> starts_value (s ++ r).
Proof. destruct s; simpl; [contradiction | auto]. Qed.

Lemma dumps_length_pos (v : json) : 1 <= String.length (Json.dumps v).
Proof.
  pose proof (dumps_starts_value v) as H.
  destruct (Json.dumps v); simpl in *; [contradiction | lia].
Qed.

(** What [scan_once] does on each kind of opening character. *)
Lemma scan_once_list (fuel : nat) (r : string) :
  Json.scan_once (S fuel) (String "[" r)
  = match Json.skip_ws r with
    | String c' r' =>
        if Ascii.eqb c' "]" then Some (JList [], r')
        else match Json.array_loop fuel (String c' r') with
             | Some (values, rest) => Some (JList values, rest)
             | None => None
             end
    | EmptyString => None
    end.
Proof. reflexivity. Qed.

Lemma scan_once_dict (fuel : nat) (r : string) :
  Json.scan_once (S fuel) (String "{" r)
  = match Json.skip_ws r with
    | String c' r' =>
        if Ascii.eqb c' "}" then Some (JDict [], r')
        else if Ascii.eqb c' Json.dquote then
          match Json.object_loop fuel r' with
          | Some (pairs, rest) => Some (JDict (Json.dict_of_pairs pairs), rest)
          | None => None
          end
        else None
    | EmptyString => None
    end.
Proof. reflexivity. Qed.

Lemma scan_once_str (fuel : nat) (r : string) :
  Json.scan_once (S fuel) (String Json.dquote r)
  = match Json.scanstring r with
    | Some (str, rest) => Some (JStr str, rest)
    | None => None
    end.
Proof. reflexivity. Qed.

Lemma array_loop_S (fuel : nat) (s : string) :
  Json.array_loop (S fuel) s
  = match Json.scan_once fuel s with
    | Some (value, rest) =>
        match Json.skip_ws rest with
        | String c r =>
            if Ascii.eqb c "]" then Some ([value], r)
            else if Ascii.eqb c "," then
              match Json.array_loop fuel (Json.skip_ws r) with
              | Some (values, rest') => Some (value :: values, rest')
              | None => None
              end
            else None
        | EmptyString => None
        end
    | None => None
    end.
Proof. reflexivity. Qed.

Lemma object_loop_S (fuel : nat) (s : string) :
  Json.object_loop (S fuel) s
  = match Json.scanstring s with
    | Some (key, rest) =>
        match Json.skip_ws rest with
        | String c r =>
            if Ascii.eqb c ":" then
              match Json.scan_once fuel (Json.skip_ws r) with
              | Some (value, rest1) =>
                  match Json.skip_ws rest1 with
                  | String c1 r1 =>
                      if Ascii.eqb c1 "}" then Some ([(key, value)], r1)
                      else if Ascii.eqb c1 "," then
                        match Json.skip_ws r1 with
                        | String c2 r2 =>
                            if Ascii.eqb c2 Json.dquote then
                              match Json.object_loop fuel r2 with
                              | Some (pairs, rest2) =>
                                  Some ((key, value) :: pairs, rest2)
                              | None => None
                              end
                            else None
                        | EmptyString => None
                        end
                      else None
                  | EmptyString => None
                  end
              | None => None
              end
            else None
        | EmptyString => None
        end
    | None => None
    end.
Proof. reflexivity. Qed.

Lemma dumps_list_cons (f : json -> string) (x y : json) (l : list json) :
  Json.dumps_list f (x :: y :: l)
  = (f x ++ ", " ++ Json.dumps_list f (y :: l))%string.
Proof. reflexivity. Qed.

Ltac codec_cbn :=
  cbn -[Json.dumps Json.dumps_list Json.dumps_dict Json.dumps_str
        Json.array_loop Json.scan_once Json.object_loop Json.scanstring
        Json.escape].

Ltac codec_cbn_in H :=
  cbn -[Json.dumps Json.dumps_list Json.dumps_dict Json.dumps_str
        Json.array_loop Json.scan_once Json.object_loop Json.scanstring
        Json.escape] in H.

Lemma array_loop_dumps_list (l : list json) :
  l <> [] -> Forall reads_back l ->
  forall fuel rest,
    String.length (Json.dumps_list Json.dumps l) <= fuel ->
    Json.array_loop fuel (Json.dumps_list Json.dumps l ++ rest) = Some (l, rest).
Proof.
  induction l as [|x l IH]; [easy|]. intros _ F fuel rest L.
  inversion F as [|? ? Hx Fl]; subst.
  pose proof (dumps_length_pos x) as Lx.
  destruct l as [|y l].
  - simpl in L |- *. rewrite append_length in L; simpl in L.
    destruct fuel as [|fuel]; [lia|].
    rewrite array_loop_S, append_assoc.
    rewrite Hx; [reflexivity | lia | split; reflexivity].
  - rewrite dumps_list_cons in L |- *.
    rewrite !append_length in L. codec_cbn_in L.
    destruct fuel as [|fuel]; [lia|].
    rewrite array_loop_S, append_assoc.
    rewrite Hx; [| lia | split; reflexivity].
    rewrite append_assoc. codec_cbn.
    rewrite skip_ws_starts_value.
    + rewrite (IH ltac:(discriminate) Fl fuel rest); [reflexivity | lia].
    + apply starts_value_app. simpl. apply starts_value_app, dumps_starts_value.
Qed.

Lemma dumps_dict_body (kv : string * json) (d : dict json) :
  Json.dumps_dict Json.dumps (kv :: d) = String Json.dquote (dict_body (kv :: d)).
Proof. reflexivity. Qed.

Lemma dict_body_last (k : string) (v : json) (rest : string) :
  (dict_body [(k, v)] ++ rest
   = Json.escape k
     ++ String Json.dquote (String ":" (String " " (Json.dumps v ++ String "}" rest))))%string.
Proof.
  unfold dict_body.
  change (Json.dumps_dict Json.dumps [(k, v)])
    with (Json.dumps_str k ++ ": " ++ Json.dumps v ++ "}")%string.
  unfold Json.dumps_str. codec_cbn.
  rewrite !append_assoc. f_equal. codec_cbn. now rewrite append_assoc.
Qed.

Lemma dict_body_cons (k : string) (v : json) (kv : string * json)
      (d : dict json) (rest : string) :
  (dict_body ((k, v) :: kv :: d) ++ rest
   = Json.escape k
     ++ String Json.dquote
          (String ":" (String " "
             (Json.dumps v
              ++ String "," (String " " (String Json.dquote
                   (dict_body (kv :: d) ++ rest)))))))%string.
Proof.
  unfold dict_body at 1.
  change (Json.dumps_dict Json.dumps ((k, v) :: kv :: d))
    with (Json.dumps_str k ++ ": " ++ Json.dumps v ++ ", "
          ++ Json.dumps_dict Json.dumps (kv :: d))%string.
  rewrite dumps_dict_body. unfold Json.dumps_str. codec_cbn.
  rewrite !append_assoc. f_equal. codec_cbn. now rewrite append_assoc.
Qed.

Lemma dumps_dict_length_last (k : string) (v : json) :
  String.length (Json.dumps v) + 1
  <= String.length (Json.dumps_dict Json.dumps [(k, v)]).
Proof.
  change (Json.dumps_dict Json.dumps [(k, v)])
    with (Json.dumps_str k ++ ": " ++ Json.dumps v ++ "}")%string.
  rewrite !append_length. cbn [String.length]. lia.
Qed.

Lemma dumps_dict_length_cons (k : string) (v : json) (kv : string * json)
      (d : dict json) :
  String.length (Json.dumps v)
  + String.length (Json.dumps_dict Json.dumps (kv :: d)) + 1
  <= String.length (Json.dumps_dict Json.dumps ((k, v) :: kv :: d)).
Proof.
  change (Json.dumps_dict Json.dumps ((k, v) :: kv :: d))
    with (Json.dumps_str k ++ ": " ++ Json.dumps v ++ ", "
          ++ Json.dumps_dict Json.dumps (kv :: d))%string.
  rewrite !append_length. cbn [String.length]. lia.
Qed.

Lemma object_loop_dumps_dict (d : dict json) :
  d <> [] -> Forall (fun kv => reads_back (snd kv)) d ->
  forall fuel rest,
    String.length (Json.dumps_dict Json.dumps d) <= fuel ->
    Json.object_loop fuel (dict_body d ++ rest) = Some (d, rest).
Proof.
  induction d as [|[k v] d IH]; [easy|]. intros _ F fuel rest L.
  inversion F as [|? ? Hv Fd]; subst. simpl in Hv.
  destruct d as [|kv d].
  - pose proof (dumps_dict_length_last k v) as Lv.
    destruct fuel as [|fuel]; [lia|].
    rewrite object_loop_S, dict_body_last, scanstring_escape.
    codec_cbn.
    rewrite skip_ws_starts_value by apply starts_value_app, dumps_starts_value.
    rewrite Hv; [reflexivity | lia | split; reflexivity].
  - pose proof (dumps_dict_length_cons k v kv d) as Lv.
    destruct fuel as [|fuel]; [lia|].
    rewrite object_loop_S, dict_body_cons, scanstring_escape.
    codec_cbn.
    rewrite skip_ws_starts_value by apply starts_value_app, dumps_starts_value.
    rewrite Hv; [| lia | split; reflexivity].
    codec_cbn.
    rewrite (IH ltac:(discriminate) Fd fuel rest); [reflexivity | lia].
Qed.

Lemma dict_set_fresh {V} (d : dict V) (k : string) (v : V) :
  ~ In k (dict_keys d) -> dict_set d k v = d ++ [(k, v)].
Proof.
  induction d as [|[k' v'] d IH]; simpl; [reflexivity|].
  intros H. destruct (String.eqb_spec k k') as [->|N].
  - exfalso; apply H; now left.
  - f_equal. apply IH. intros I; apply H; now right.
Qed.

Lemma fold_dict_set_wf (pairs acc : dict json) :
  dict_wf (acc ++ pairs) ->
  fold_left (fun d kv => dict_set d (fst kv) (snd kv)) pairs acc = acc ++ pairs.
Proof.
  revert acc; induction pairs as [|[k v] pairs IH]; intros acc W; simpl.
  - now rewrite List.app_nil_r.
  - assert (E : acc ++ (k, v) :: pairs = (acc ++ [(k, v)]) ++ pairs)
      by now rewrite <- List.app_assoc.
    rewrite dict_set_fresh.
    + rewrite IH; [now rewrite <- List.app_assoc | now rewrite <- E].
    + unfold dict_wf, dict_keys in W. rewrite map_app in W. simpl in W.
      apply NoDup_remove_2 in W. intros I; apply W, in_or_app; now left.
Qed.

Lemma dict_of_pairs_wf (d : dict json) : dict_wf d -> Json.dict_of_pairs d = d.
Proof. intros W. unfold Json.dict_of_pairs. now rewrite fold_dict_set_wf. Qed.

Lemma starts_value_inv (s : string) :
  starts_value s ->
  exists c r, s = String c r /\ Json.is_ws c = false /\ Ascii.eqb c "]" = false.
Proof. destruct s as [|c r]; simpl; [easy | eauto]. Qed.

(** The decoder reads a dumped value back, whatever text follows it that
    cannot continue a number, and with any fuel from the length of the
    dump on. *)
Lemma scan_once_dumps (v : json) : wf_json v -> reads_back v.
Proof.
  induction v as [|b|n|s|l IH|d IH|l IH] using json_induction;
    intros W fuel rest L D; [| | | | | |inversion W].
  - destruct fuel; [simpl in L; lia | reflexivity].
  - destruct fuel; [destruct b; simpl in L; lia | destruct b; reflexivity].
  - pose proof (dumps_length_pos (JInt n)).
    destruct fuel; [lia|]. simpl Json.dumps.
    destruct (dumps_int_start n) as (c & s' & E & H').
    pose proof (scan_number_dumps_int n D) as R.
    rewrite E in R |- *. simpl String.append in R |- *.
    now rewrite scan_once_number.
  - destruct fuel; [simpl in L; lia|]. simpl Json.dumps.
    unfold Json.dumps_str. codec_cbn.
    rewrite scan_once_str, append_assoc. codec_cbn.
    now rewrite scanstring_escape.
  - inversion W as [| | | |? Wl|]; subst.
    assert (F : Forall reads_back l).
    { rewrite Forall_forall in *. auto. }
    destruct fuel; [simpl in L; lia|].
    change (Json.dumps (JList l)) with ("[" ++ Json.dumps_list Json.dumps l)%string in L |- *.
    simpl String.length in L. simpl String.append.
    rewrite scan_once_list.
    destruct l as [|x l]; [reflexivity|].
    assert (SV : starts_value (Json.dumps_list Json.dumps (x :: l) ++ rest)).
    { apply starts_value_app. simpl. apply starts_value_app, dumps_starts_value. }
    rewrite skip_ws_starts_value by exact SV.
    pose proof (@array_loop_dumps_list (x :: l) ltac:(discriminate) F fuel rest
                  ltac:(lia)) as A.
    destruct (starts_value_inv _ SV) as (c & r & E & _ & Hc).
    rewrite E in A |- *. now rewrite Hc, A.
  - inversion W as [| | | | |? Wd Wv]; subst.
    assert (F : Forall (fun kv => reads_back (snd kv)) d).
    { rewrite Forall_forall in *. auto. }
    destruct fuel; [simpl in L; lia|].
    change (Json.dumps (JDict d)) with ("{" ++ Json.dumps_dict Json.dumps d)%string in L |- *.
    simpl String.length in L. simpl String.append.
    rewrite scan_once_dict.
    destruct d as [|kv d]; [reflexivity|].
    rewrite dumps_dict_body. codec_cbn.
    rewrite (@object_loop_dumps_dict (kv :: d) ltac:(discriminate) F fuel rest
               ltac:(lia)).
    now rewrite dict_of_pairs_wf.
Qed.

(** [json.loads(json.dumps(v)) == v] *)
Theorem loads_dumps (v : json) : wf_json v -> Json.loads (Json.dumps v) = Some v.
Proof.
  intros W. unfold Json.loads.
  rewrite skip_ws_starts_value by apply dumps_starts_value.
  pose proof (@scan_once_dumps v W (S (String.length (Json.dumps v))) EmptyString
                ltac:(lia) ltac:(split; reflexivity)) as R.
  assert (E : (Json.dumps v ++ EmptyString)%string = Json.dumps v).
  { generalize (Json.dumps v) as s. induction s; simpl; congruence. }
  rewrite E in R. now rewrite R.
Qed.

(** ** What the decoder returns is well formed *)

Lemma dict_set_keys {V} (d : dict V) (k : string) (v : V) :
  dict_keys (dict_set d k v)
  = if dict_mem d k then dict_keys d else dict_keys d ++ [k].
Proof.
  unfold dict_mem.
  induction d as [|[k' v'] d IH]; simpl; [reflexivity|].
  destruct (String.eqb_spec k k') as [->|N]; simpl; [reflexivity|].
  rewrite IH. now destruct (dict_get d k).
Qed.

Lemma dict_mem_in {V} (d : dict V) (k : string) :
  dict_mem d k = true <-> In k (dict_keys d).
Proof.
  unfold dict_mem.
  induction d as [|[k' v'] d IH]; simpl; [split; [discriminate | easy]|].
  destruct (String.eqb_spec k k') as [->|N].
  - split; auto.
  - rewrite IH. split; [auto | intros [E|I]; congruence].
Qed.

Lemma dict_set_wf {V} (d : dict V) (k : string) (v : V) :
  dict_wf d -> dict_wf (dict_set d k v).
Proof.
  unfold dict_wf. intros W. rewrite dict_set_keys.
  destruct (dict_mem d k) eqn:E; [exact W|].
  apply NoDup_app; [exact W | repeat constructor; easy |].
  intros x Hx [<-|[]]. apply dict_mem_in in Hx. congruence.
Qed.

Lemma dict_set_Forall {V} (P : V -> Prop) (d : dict V) (k : string) (v : V) :
  Forall (fun kv => P (snd kv)) d -> P v ->
  Forall (fun kv => P (snd kv)) (dict_set d k v).
Proof.
  intros F Hv. induction F as [|[k' v'] d Hk F IH]; simpl.
  - now repeat constructor.
  - destruct (String.eqb k k'); constructor; auto.
Qed.

Lemma dict_of_pairs_wf_json (pairs : list (string * json)) :
  Forall (fun kv => wf_json (snd kv)) pairs ->
  wf_json (JDict (Json.dict_of_pairs pairs)).
Proof.
  intros F. unfold Json.dict_of_pairs.
  assert (G : forall acc : dict json,
             dict_wf acc -> Forall (fun kv => wf_json (snd kv)) acc ->
             let d := fold_left (fun d kv => dict_set d (fst kv) (snd kv)) pairs acc in
             dict_wf d /\ Forall (fun kv => wf_json (snd kv)) d).
  { induction F as [|[k v] pairs Hv F IH]; intros acc W A; simpl; [auto|].
    apply IH; [now apply dict_set_wf | now apply dict_set_Forall]. }
  destruct (G [] ltac:(constructor) ltac:(constructor)).
  now constructor.
Qed.

Lemma scan_number_wf (s : string) (v : json) (r : string) :
  Json.scan_number s = Some (v, r) -> wf_json v.
Proof.
  unfold Json.scan_number. intros H.
  repeat match type of H with
         | context [match ?x with _ => _ end] => destruct x; try discriminate
         end;
    inversion H; constructor.
Qed.

Lemma scan_once_S (fuel : nat) (c : ascii) (r : string) :
  Json.scan_once (S fuel) (String c r)
  = if Ascii.eqb c Json.dquote then
      match Json.scanstring r with
      | Some (str, rest) => Some (JStr str, rest)
      | None => None
      end
    else if Ascii.eqb c "{" then
      match Json.skip_ws r with
      | String c' r' =>
          if Ascii.eqb c' "}" then Some (JDict [], r')
          else if Ascii.eqb c' Json.dquote then
            match Json.object_loop fuel r' with
            | Some (pairs, rest) => Some (JDict (Json.dict_of_pairs pairs), rest)
            | None => None
            end
          else None
      | EmptyString => None
      end
    else if Ascii.eqb c "[" then
      match Json.skip_ws r with
      | String c' r' =>
          if Ascii.eqb c' "]" then Some (JList [], r')
          else
            match Json.array_loop fuel (String c' r') with
            | Some (values, rest) => Some (JList values, rest)
            | None => None
            end
      | EmptyString => None
      end
    else if Ascii.eqb c "n" then
      match Json.eat "ull" r with Some rest => Some (JNull, rest) | None => None end
    else if Ascii.eqb c "t" then
      match Json.eat "rue" r with Some rest => Some (JBool true, rest) | None => None end
    else if Ascii.eqb c "f" then
      match Json.eat "alse" r with Some rest => Some (JBool false, rest) | None => None end
    else Json.scan_number (String c r).
Proof. reflexivity. Qed.

Ltac break_scan H :=
  repeat match type of H with
         | context [match ?x with _ => _ end] =>
             destruct x eqn:?; try discriminate
         end;
  inversion H; subst; clear H.

Lemma scan_wf (fuel : nat) :
  (forall s v r, Json.scan_once fuel s = Some (v, r) -> wf_json v)
  /\ (forall s vs r, Json.array_loop fuel s = Some (vs, r) -> Forall wf_json vs)
  /\ (forall s ps r, Json.object_loop fuel s = Some (ps, r) ->
                     Forall (fun kv => wf_json (snd kv)) ps).
Proof.
  induction fuel as [|fuel (IH1 & IH2 & IH3)]; [repeat split; discriminate|].
  repeat split.
  - intros [|c s] v r H; [discriminate|].
    rewrite scan_once_S in H.
    destruct (Ascii.eqb c "{") eqn:Eo; [|destruct (Ascii.eqb c "[") eqn:Ea].
    + break_scan H; try (constructor; constructor).
      apply dict_of_pairs_wf_json. eauto.
    + break_scan H; try (constructor; constructor).
      constructor. eauto.
    + destruct (Ascii.eqb c Json.dquote); [break_scan H; constructor|].
      destruct (Ascii.eqb c "n"); [break_scan H; constructor|].
      destruct (Ascii.eqb c "t"); [break_scan H; constructor|].
      destruct (Ascii.eqb c "f"); [break_scan H; constructor|].
      eapply scan_number_wf; eassumption.
  - intros s vs r H. rewrite array_loop_S in H.
    break_scan H; repeat constructor; eauto.
  - intros s ps r H. rewrite object_loop_S in H.
    break_scan H; repeat constructor; simpl; eauto.
Qed.

Theorem loads_wf (s : string) (v : json) : Json.loads s = Some v -> wf_json v.
Proof.
  unfold Json.loads. intros H.
  destruct (Json.scan_once _ _) as [[obj rest]|] eqn:E; [|discriminate].
  destruct (Json.skip_ws rest); [|discriminate].
  inversion H; subst. eapply (proj1 (scan_wf _)); eassumption.
Qed.

(** ** The decoder has fuel enough *)

Lemma skip_ws_length (s : string) :
  String.length (Json.skip_ws s) <= String.length s.
Proof.
  induction s as [|c s IH]; simpl; [lia|].
  destruct (Json.is_ws c); simpl; lia.
Qed.

Lemma cons_char_inv (c : ascii) (o : option (string * string)) (k r : string) :
  Json.cons_char c o = Some (k, r) -> exists k', o = Some (k', r).
Proof. destruct o as [[k' r']|]; simpl; [|discriminate]. intros [= _ <-]. eauto. Qed.

Lemma scanstring_length_bounded (n : nat) :
  forall s k r, String.length s <= n -> Json.scanstring s = Some (k, r) ->
                String.length r < String.length s.
Proof.
  induction n as [|n IH]; intros s k r L H.
  - destruct s; [discriminate | simpl in L; lia].
  - destruct s as [|c s1]; [discriminate|]. simpl in L. cbn [Json.scanstring] in H.
    destruct (Ascii.eqb c Json.dquote); [inversion H; subst; simpl; lia|].
    destruct (Ascii.eqb c Json.backslash).
    + destruct s1 as [|e s2]; [discriminate|]. simpl in L.
      destruct (Ascii.eqb e "u").
      * destruct s2 as [|h1 [|h2 [|h3 [|h4 s3]]]]; try discriminate.
        simpl in L.
        destruct (Json.hex_value h1), (Json.hex_value h2), (Json.hex_value h3),
          (Json.hex_value h4); try discriminate.
        match type of H with (if ?b then _ else _) = _ => destruct b end;
          [|discriminate].
        apply cons_char_inv in H. destruct H as [k' H].
        apply IH in H; simpl; lia.
      * destruct (Json.unescape e); [|discriminate].
        apply cons_char_inv in H. destruct H as [k' H].
        apply IH in H; simpl; lia.
    + destruct (N_of_ascii c <? 32)%N; [discriminate|].
      apply cons_char_inv in H. destruct H as [k' H].
      apply IH in H; simpl; lia.
Qed.

Lemma scanstring_length (s k r : string) :
  Json.scanstring s = Some (k, r) -> String.length r < String.length s.
Proof. apply scanstring_length_bounded with (n := String.length s). lia. Qed.

Lemma eat_length (lit s r : string) :
  Json.eat lit s = Some r -> String.length r <= String.length s.
Proof.
  revert s; induction lit as [|c lit IH]; intros s H; simpl in H.
  - inversion H; subst; lia.
  - destruct s as [|c' s]; [discriminate|].
    destruct (Ascii.eqb c c'); [|discriminate]. apply IH in H. simpl; lia.
Qed.

Lemma scan_digits_length (s : string) :
  String.length (snd (Json.scan_digits s)) <= String.length s.
Proof.
  induction s as [|c s IH]; simpl; [lia|].
  destruct (Json.is_digit c); simpl; [|lia].
  destruct (Json.scan_digits s); simpl in *; lia.
Qed.

Lemma scan_intpart_length (s : string) (n : N) (r : string) :
  Json.scan_intpart s = Some (n, r) -> String.length r < String.length s.
Proof.
  unfold Json.scan_intpart. destruct s as [|c s]; [discriminate|].
  destruct (Ascii.eqb c "0"); [intros [= _ <-]; simpl; lia|].
  destruct (Json.is_digit c) eqn:D; [|discriminate].
  pose proof (scan_digits_length s) as L. simpl. rewrite D.
  destruct (Json.scan_digits s) as [u rest]. intros [= _ <-]. simpl in *. lia.
Qed.

Lemma scan_number_length (s : string) (v : json) (r : string) :
  Json.scan_number s = Some (v, r) -> String.length r < String.length s.
Proof.
  unfold Json.scan_number. destruct s as [|c s]; [discriminate|].
  destruct (Ascii.eqb c "-").
  - destruct (Json.scan_intpart s) as [[n rest]|] eqn:E; [|discriminate].
    apply scan_intpart_length in E.
    destruct (Json.float_follows rest); [discriminate|].
    intros [= _ <-]. simpl; lia.
  - destruct (Json.scan_intpart (String c s)) as [[n rest]|] eqn:E; [|discriminate].
    apply scan_intpart_length in E.
    destruct (Json.float_follows rest); [discriminate|].
    now intros [= _ <-].
Qed.

Ltac crunch H :=
  repeat match type of H with
         | context [match Json.scan_once ?f ?a with _ => _ end] =>
             let E := fresh "E" in
             destruct (Json.scan_once f a) as [[? ?]|] eqn:E; [|discriminate H]
         | context [match Json.array_loop ?f ?a with _ => _ end] =>
             let E := fresh "E" in
             destruct (Json.array_loop f a) as [[? ?]|] eqn:E; [|discriminate H]
         | context [match Json.object_loop ?f ?a with _ => _ end] =>
             let E := fresh "E" in
             destruct (Json.object_loop f a) as [[? ?]|] eqn:E; [|discriminate H]
         | context [match Json.skip_ws ?a with _ => _ end] =>
             let L := fresh "L" in
             pose proof (skip_ws_length a) as L;
             destruct (Json.skip_ws a) eqn:?; [discriminate H|]
         | context [match Json.scanstring ?a with _ => _ end] =>
             let E := fresh "E" in
             destruct (Json.scanstring a) as [[? ?]|] eqn:E;
             [pose proof (scanstring_length _ E) | discriminate H]
         | context [match Json.eat ?l ?a with _ => _ end] =>
             let E := fresh "E" in
             destruct (Json.eat l a) eqn:E;
             [pose proof (eat_length _ _ E) | discriminate H]
         | context [if ?b then _ else _] => destruct b eqn:?; try discriminate H
         end.

Ltac replay :=
  repeat match goal with
         | E : ?lhs = _ |- context [match ?lhs with _ => _ end] => rewrite E
         | Q : forall f', _ -> Json.scan_once f' ?a = _
           |- context [Json.scan_once ?g ?a] =>
             rewrite (Q g) by (cbn [String.length] in *; lia)
         | Q : forall f', _ -> Json.array_loop f' ?a = _
           |- context [Json.array_loop ?g ?a] =>
             rewrite (Q g) by (cbn [String.length] in *; lia)
         | Q : forall f', _ -> Json.object_loop f' ?a = _
           |- context [Json.object_loop ?g ?a] =>
             rewrite (Q g) by (cbn [String.length] in *; lia)
         end.

Ltac use_fuel_IH IH1 IH2 IH3 :=
  repeat match goal with
         | E : Json.scan_once _ _ = Some _ |- _ =>
             let L := fresh "L" in let Q := fresh "Q" in
             destruct (IH1 _ _ _ E) as [L Q]; clear E
         | E : Json.array_loop _ _ = Some _ |- _ =>
             let L := fresh "L" in let Q := fresh "Q" in
             destruct (IH2 _ _ _ E) as [L Q]; clear E
         | E : Json.object_loop _ _ = Some _ |- _ =>
             let L := fresh "L" in let Q := fresh "Q" in
             destruct (IH3 _ _ _ E) as [L Q]; clear E
         end.

Ltac ws_facts :=
  repeat match goal with
         | H : context [Json.skip_ws ?a] |- _ =>
             lazymatch goal with
             | _ : String.length (Json.skip_ws a) <= String.length a |- _ => fail
             | _ => pose proof (skip_ws_length a)
             end
         end.

Lemma scan_fuel (fuel : nat) :
  fuel_by_length Json.scan_once fuel
  /\ fuel_by_length Json.array_loop fuel
  /\ fuel_by_length Json.object_loop fuel.
Proof.
  unfold fuel_by_length.
  induction fuel as [|fuel (IH1 & IH2 & IH3)]; [repeat split; discriminate|].
  split; [|split].
  - intros [|c s0] v r H; [discriminate|].
    rewrite scan_once_S in H. crunch H; use_fuel_IH IH1 IH2 IH3;
      try (apply scan_number_length in H as Ln);
      try (injection H as <- <-);
      (split; [cbn [String.length] in *; lia|]);
      (intros [|fuel'] F; [cbn [String.length] in *; lia|]);
      rewrite scan_once_S; replay; try reflexivity; try assumption.
  - intros s vs r H.
    rewrite array_loop_S in H. crunch H; use_fuel_IH IH1 IH2 IH3; ws_facts;
      try (injection H as <- <-);
      (split; [cbn [String.length] in *; lia|]);
      (intros [|fuel'] F; [cbn [String.length] in *; lia|]);
      rewrite array_loop_S; replay; reflexivity.
  - intros s ps r H.
    rewrite object_loop_S in H. crunch H; use_fuel_IH IH1 IH2 IH3; ws_facts;
      try (injection H as <- <-);
      (split; [cbn [String.length] in *; lia|]);
      (intros [|fuel'] F; [cbn [String.length] in *; lia|]);
      rewrite object_loop_S; replay; reflexivity.
Qed.

Ltac use_mono_IH IH1 IH2 IH3 :=
  repeat match goal with
         | E : Json.scan_once ?f _ = Some _, IH : context [Json.scan_once ?f] |- _ =>
             apply IH1 in E
         | E : Json.array_loop ?f _ = Some _, IH : context [Json.array_loop ?f] |- _ =>
             apply IH2 in E
         | E : Json.object_loop ?f _ = Some _, IH : context [Json.object_loop ?f] |- _ =>
             apply IH3 in E
         end.

(** One more unit of fuel changes nothing to what was read. *)
Lemma scan_more_fuel (fuel : nat) :
  (forall s x, Json.scan_once fuel s = Some x -> Json.scan_once (S fuel) s = Some x)
  /\ (forall s x, Json.array_loop fuel s = Some x ->
                  Json.array_loop (S fuel) s = Some x)
  /\ (forall s x, Json.object_loop fuel s = Some x ->
                  Json.object_loop (S fuel) s = Some x).
Proof.
  induction fuel as [|fuel (IH1 & IH2 & IH3)]; [repeat split; discriminate|].
  split; [|split].
  - intros [|c s0] x H; [discriminate|].
    rewrite scan_once_S in H. rewrite scan_once_S.
    crunch H; use_mono_IH IH1 IH2 IH3; replay; assumption.
  - intros s x H. rewrite array_loop_S in H. rewrite array_loop_S.
    crunch H; use_mono_IH IH1 IH2 IH3; replay; assumption.
  - intros s x H. rewrite object_loop_S in H. rewrite object_loop_S.
    crunch H; use_mono_IH IH1 IH2 IH3; replay; assumption.
Qed.

Lemma scan_once_more_fuel (fuel fuel' : nat) (s : string) (x : json * string) :
  fuel <= fuel' -> Json.scan_once fuel s = Some x -> Json.scan_once fuel' s = Some x.
Proof.
  induction 1 as [|fuel' L IH]; [easy|].
  intros H. now apply (proj1 (scan_more_fuel fuel')), IH.
Qed.

(** The fuel that [loads] gives the decoder is enough: with any greater
    fuel the decoder returns the same. *)
Theorem loads_fuel_enough (s : string) (fuel : nat) :
  String.length s < fuel ->
  Json.scan_once fuel (Json.skip_ws s)
  = Json.scan_once (S (String.length s)) (Json.skip_ws s).
Proof.
  intros L. pose proof (skip_ws_length s) as W.
  destruct (Json.scan_once fuel (Json.skip_ws s)) as [[v r]|] eqn:E.
  - destruct (proj1 (scan_fuel fuel) _ _ _ E) as [_ Q].
    symmetry. apply Q. lia.
  - destruct (Json.scan_once (S (String.length s)) (Json.skip_ws s)) as [x|] eqn:E';
      [|reflexivity].
    apply (@scan_once_more_fuel _ fuel) in E'; [congruence | lia].
Qed.

(** ** The cache on disk *)

Lemma new_events_app (w w' : world) (es : list event) :
  log w' = log w ++ es -> new_events w w' = es.
Proof.
  unfold new_events. intros ->.
  rewrite skipn_app, skipn_all, Nat.sub_diag. reflexivity.
Qed.

(** [open_cache] never raises and only reads. *)
Lemma open_cache_loaded (w : world) :
  open_cache w = (Ok (loaded (cache_file w)), emit EvRead w).
Proof.
  unfold open_cache, try_except, bind, read_file, json_loads, loaded.
  destruct (cache_file w) as [| |contents]; try reflexivity.
  destruct (Json.loads contents); reflexivity.
Qed.

Lemma loaded_wf (f : file) : wf_json (loaded f).
Proof.
  destruct f as [| |contents]; simpl; try (constructor; constructor).
  destruct (Json.loads contents) eqn:E; [|constructor; constructor].
  eapply loads_wf; eassumption.
Qed.

Lemma loaded_dumps (v : json) : wf_json v -> loaded (Text (Json.dumps v)) = v.
Proof. intros W. simpl. now rewrite loads_dumps. Qed.

Lemma contains_keys {V} (d : dict V) (k : string) :
  contains (dict_keys d) k = dict_mem d k.
Proof.
  unfold contains, dict_mem.
  induction d as [|[k' v] d IH]; simpl; [reflexivity|].
  destruct (String.eqb k k'); [reflexivity | exact IH].
Qed.

Lemma dict_get_set {V} (d : dict V) (k : string) (v : V) :
  dict_get (dict_set d k v) k = Some v.
Proof.
  induction d as [|[k' v'] d IH]; simpl.
  - now rewrite String.eqb_refl.
  - destruct (String.eqb k k') eqn:E; simpl; rewrite E; [reflexivity | exact IH].
Qed.

Lemma dict_get_set_other {V} (d : dict V) (k k' : string) (v : V) :
  k' <> k -> dict_get (dict_set d k v) k' = dict_get d k'.
Proof.
  intros N. induction d as [|[k0 v0] d IH]; simpl.
  - destruct (String.eqb_spec k' k); [contradiction | reflexivity].
  - destruct (String.eqb_spec k k0) as [->|N0]; simpl.
    + destruct (String.eqb_spec k' k0); [contradiction | reflexivity].
    + now rewrite IH.
Qed.

Lemma wf_json_set (d : dict json) (k : string) (v : json) :
  wf_json (JDict d) -> wf_json v -> wf_json (JDict (dict_set d k v)).
Proof.
  intros W Wv. inversion W; subst.
  constructor; [now apply dict_set_wf | now apply dict_set_Forall].
Qed.

(** *** make_request_with_cache, case by case *)

Lemma make_request_hit (u : string) (w : world) (store : dict json) (body : json) :
  loaded (cache_file w) = JDict store -> dict_get store u = Some body ->
  make_request_with_cache u w
  = (Ok body, emit (EvPrint "Using CACHE") (emit EvRead w)).
Proof.
  intros Hl Hg. unfold make_request_with_cache, bind.
  rewrite open_cache_loaded, Hl. simpl.
  rewrite contains_keys. unfold dict_mem. rewrite Hg. simpl.
  unfold lift, subscript. now rewrite Hg.
Qed.

Lemma make_request_miss (u : string) (w : world) (store : dict json) (text : string) :
  loaded (cache_file w) = JDict store -> dict_get store u = None ->
  web w u [] = Some text ->
  make_request_with_cache u w
  = (Ok (JStr text),
     mkWorld (Text (Json.dumps (JDict (dict_set store u (JStr text)))))
       (web w) (stdin w)
       (log w ++ [EvRead; EvPrint "Fetching"; EvGet u [];
                  EvWrite (Json.dumps (JDict (dict_set store u (JStr text))))])).
Proof.
  intros Hl Hg Hw. unfold make_request_with_cache, bind.
  rewrite open_cache_loaded, Hl. simpl.
  rewrite contains_keys. unfold dict_mem. rewrite Hg. simpl.
  unfold requests_get. simpl. rewrite Hw. simpl.
  unfold lift, subscript. rewrite dict_get_set.
  unfold emit. simpl. now rewrite <- !List.app_assoc.
Qed.

Lemma make_request_miss_failed (u : string) (w : world) (store : dict json) :
  loaded (cache_file w) = JDict store -> dict_get store u = None ->
  web w u [] = None ->
  make_request_with_cache u w
  = (Raise RequestException,
     mkWorld (cache_file w) (web w) (stdin w)
       (log w ++ [EvRead; EvPrint "Fetching"; EvGet u []])).
Proof.
  intros Hl Hg Hw. unfold make_request_with_cache, bind.
  rewrite open_cache_loaded, Hl. simpl.
  rewrite contains_keys. unfold dict_mem. rewrite Hg. simpl.
  unfold requests_get. simpl. rewrite Hw. simpl.
  unfold emit. simpl. now rewrite <- !List.app_assoc.
Qed.

Lemma make_request_not_dict (u : string) (w : world) :
  (forall d, loaded (cache_file w) <> JDict d) ->
  make_request_with_cache u w = (Raise AttributeError, emit EvRead w).
Proof.
  intros H. unfold make_request_with_cache, bind.
  rewrite open_cache_loaded.
  destruct (loaded (cache_file w)) as [| | | | |d|]; try reflexivity.
  now destruct (H d).
Qed.

Lemma open_cache_fst (w : world) (v : json) :
  fst (open_cache w) = Ok v <-> loaded (cache_file w) = v.
Proof.
  rewrite open_cache_loaded. simpl. split; [now intros [= ->] | now intros ->].
Qed.

Lemma dict_mem_get {V} (d : dict V) (k : string) :
  (dict_mem d k = true -> exists v, dict_get d k = Some v)
  /\ (dict_mem d k = false -> dict_get d k = None).
Proof.
  unfold dict_mem. destruct (dict_get d k); split; eauto; discriminate.
Qed.








(** C2: when the cache file is missing, is unreadable or holds text that
    is not JSON, [open_cache] returns the empty store; it returns (it does
    not raise), and all it did was to read. *)
Theorem open_cache_fail_open (w : world) :
  cache_file w = Absent \/ cache_file w = Unreadable
  \/ (exists contents, cache_file w = Text contents /\ Json.loads contents = None) ->
  open_cache w = (Ok (JDict []), emit EvRead w).
Proof.
  intros H. rewrite open_cache_loaded. do 2 f_equal.
  destruct H as [E|[E|(contents & E & L)]]; rewrite E; simpl; [reflexivity ..|].
  now rewrite L.
Qed.

Lemma open_cache_fail_open_witness :
  fst (open_cache (mkWorld Absent example_web [] [])) = Ok (JDict [])
  /\ fst (open_cache (mkWorld Unreadable example_web [] [])) = Ok (JDict [])
  /\ fst (open_cache (mkWorld (Text "{not json") example_web [] [])) = Ok (JDict []).
Proof.
  split; [|split].
  - rewrite (@open_cache_fail_open (mkWorld Absent example_web [] [])); auto.
  - rewrite (@open_cache_fail_open (mkWorld Unreadable example_web [] [])); auto.
  - rewrite (@open_cache_fail_open (mkWorld (Text "{not json") example_web [] []));
      [reflexivity|].
    right; right. exists "{not json". split; reflexivity.
Defined.






(** C8: a call that hits the cache leaves the cache file as it was: it
    reads the file and prints, and nothing more.  And whenever a call
    writes the file, the key was not in the store it had loaded. *)
Theorem make_request_with_cache_writes_only_on_miss (u : string) (w : world) :
  let w' := snd (make_request_with_cache u w) in
  (forall store, fst (open_cache w) = Ok (JDict store) -> dict_mem store u = true ->
     cache_file w' = cache_file w
     /\ new_events w w' = [EvRead; EvPrint "Using CACHE"])
  /\ (forall contents, In (EvWrite contents) (new_events w w') ->
      exists store, fst (open_cache w) = Ok (JDict store)
                    /\ dict_mem store u = false).
Proof.
  cbv zeta. split.
  - intros store Ho Hm. apply open_cache_fst in Ho.
    destruct (proj1 (dict_mem_get store u) Hm) as [body Hg].
    rewrite (make_request_hit u w Ho Hg). simpl. split; [reflexivity|].
    apply new_events_app. simpl. now rewrite <- List.app_assoc.
  - intros contents Hin.
    destruct (loaded (cache_file w)) as [| | | | |store|] eqn:Ho;
      try (rewrite make_request_not_dict in Hin by (rewrite Ho; discriminate);
           rewrite (@new_events_app w _ [EvRead]) in Hin by reflexivity;
           destruct Hin as [Hin|[]]; discriminate).
    exists store. split; [now apply open_cache_fst|].
    destruct (dict_mem store u) eqn:Hm; [exfalso | reflexivity].
    destruct (proj1 (dict_mem_get store u) Hm) as [body Hg].
    rewrite (make_request_hit u w Ho Hg) in Hin.
    rewrite (@new_events_app w _ [EvRead; EvPrint "Using CACHE"]) in Hin
      by (simpl; now rewrite <- List.app_assoc).
    destruct Hin as [Hin|[Hin|[]]]; discriminate.
Qed.

Lemma make_request_with_cache_writes_only_on_miss_witness :
  let w' := snd (make_request_with_cache "https://example.test/a" fabricated_world) in
  cache_file w' = cache_file fabricated_world
  /\ new_events fabricated_world w' = [EvRead; EvPrint "Using CACHE"].
Proof.
  cbv zeta.
  apply (proj1 (@make_request_with_cache_writes_only_on_miss
                  "https://example.test/a" fabricated_world)
               [("https://example.test/a", JStr "BODY")]);
    reflexivity.
Defined.

(** C10: a cache file holding valid JSON that is not an object is
    returned by [open_cache] as it is, not as an empty store; and
    [make_request_with_cache] on such a file raises [AttributeError] at
    [CACHE_DICT.keys()], having only read the file. *)
Theorem open_cache_non_mapping
        (u : string) (w : world) (contents : string) (v : json) :
  cache_file w = Text contents -> Json.loads contents = Some v ->
  (forall d, v <> JDict d) ->
  open_cache w = (Ok v, emit EvRead w)
  /\ make_request_with_cache u w = (Raise AttributeError, emit EvRead w)
  /\ make_request_with_cache u (snd (open_cache w))
     = (Raise AttributeError, emit EvRead (snd (open_cache w))).
Proof.
  intros Hf Hl Hv.
  assert (L : loaded (cache_file w) = v) by (rewrite Hf; simpl; now rewrite Hl).
  rewrite open_cache_loaded, L. repeat split.
  - apply make_request_not_dict. now rewrite L.
  - apply make_request_not_dict. simpl. now rewrite L.
Qed.

Lemma open_cache_non_mapping_witness :
  let w := mkWorld (Text "[1, 2]") example_web [] [] in
  fst (open_cache w) = Ok (JList [JInt 1; JInt 2])
  /\ fst (make_request_with_cache "https://example.test/a" w) = Raise AttributeError.
Proof.
  cbv zeta.
  destruct (@open_cache_non_mapping "https://example.test/a"
              (mkWorld (Text "[1, 2]") example_web [] []) "[1, 2]"
              (JList [JInt 1; JInt 2]) eq_refl eq_refl
              ltac:(intros d; discriminate)) as (H1 & H2 & _).
  rewrite H1, H2. split; reflexivity.
Defined.

(** ** get_nearby_places *)

Section PlacesFacts.

Variable API_KEY : string.

(** What a run of [get_nearby_places_frame] can be: none of the cases
    writes the file. *)
Lemma get_nearby_places_frame_cases (site : NationalSite) (w : world) :
  let r := get_nearby_places_frame API_KEY site w in
  let get := EvGet places_url (places_params API_KEY site) in
  cache_file (snd r) = cache_file w
  /\ web (snd r) = web w
  /\ (log (snd r) = log w ++ [EvRead]
      \/ log (snd r) = log w ++ [EvRead; EvPrint "Using Cache"]
      \/ log (snd r) = log w ++ [EvRead; EvPrint "Fetching"; get]).
Proof.
  cbv zeta. unfold get_nearby_places_frame, bind.
  rewrite open_cache_loaded.
  destruct (loaded (cache_file w)) as [| | | | |store|];
    try (simpl; repeat split; left; reflexivity).
  cbn [keys ret]. rewrite contains_keys. unfold dict_mem.
  destruct (dict_get store (zipcode site)) as [body|] eqn:Hg.
  - simpl. unfold lift, subscript. rewrite Hg. simpl.
    repeat split. right; left. now rewrite <- List.app_assoc.
  - simpl. unfold requests_get, json_loads. simpl.
    fold places_url. fold (places_params API_KEY site).
    destruct (web w places_url (places_params API_KEY site)) as [text|]; simpl.
    + destruct (Json.loads text); simpl; repeat split; right; right;
        now rewrite <- !List.app_assoc.
    + repeat split; right; right; now rewrite <- !List.app_assoc.
Qed.

Lemma get_nearby_places_frame_miss
      (site : NationalSite) (w : world) (store : dict json)
      (text : string) (response : json) :
  loaded (cache_file w) = JDict store ->
  dict_get store (zipcode site) = None ->
  web w places_url (places_params API_KEY site) = Some text ->
  Json.loads text = Some response ->
  get_nearby_places_frame API_KEY site w
  = (Ok (response, JDict (dict_set store (zipcode site) response)),
     mkWorld (cache_file w) (web w) (stdin w)
       (log w ++ [EvRead; EvPrint "Fetching";
                  EvGet places_url (places_params API_KEY site)])).
Proof.
  intros Hl Hg Hw Hr. unfold get_nearby_places_frame, bind.
  rewrite open_cache_loaded, Hl. cbn [keys ret].
  rewrite contains_keys. unfold dict_mem. rewrite Hg. simpl.
  unfold requests_get, json_loads. simpl.
  fold places_url. fold (places_params API_KEY site).
  rewrite Hw. simpl. rewrite Hr. simpl.
  unfold emit. simpl. now rewrite <- !List.app_assoc.
Qed.

Lemma get_nearby_places_snd (site : NationalSite) (w : world) :
  snd (get_nearby_places API_KEY site w)
  = snd (get_nearby_places_frame API_KEY site w).
Proof.
  unfold get_nearby_places, bind.
  now destruct (get_nearby_places_frame API_KEY site w) as [[[r c]|e] w'].
Qed.

(** C6: [get_nearby_places] never writes the cache file.  On a miss the
    parsed answer is put under the site's postal code in the function's
    own [CACHE_DICT] and is returned; the file, and so the store that any
    later [open_cache] loads, is as before, and the next call for the
    same site sends the request again. *)
Theorem get_nearby_places_never_persists (site : NationalSite) (w : world) :
  let w' := snd (get_nearby_places API_KEY site w) in
  cache_file w' = cache_file w
  /\ (forall contents, ~ In (EvWrite contents) (new_events w w'))
  /\ (forall store text response,
        fst (open_cache w) = Ok (JDict store) ->
        dict_mem store (zipcode site) = false ->
        web w places_url (places_params API_KEY site) = Some text ->
        Json.loads text = Some response ->
        fst (get_nearby_places_frame API_KEY site w)
        = Ok (response, JDict (dict_set store (zipcode site) response))
        /\ fst (get_nearby_places API_KEY site w) = Ok response
        /\ fst (open_cache w') = Ok (JDict store)
        /\ new_events w' (snd (get_nearby_places API_KEY site w'))
           = [EvRead; EvPrint "Fetching";
              EvGet places_url (places_params API_KEY site)]).
Proof.
  cbv zeta. rewrite get_nearby_places_snd.
  destruct (get_nearby_places_frame_cases site w) as (Hc & _ & Hlog).
  cbv zeta in Hc, Hlog. split; [exact Hc|]. split.
  - intros contents Hin.
    destruct Hlog as [E|[E|E]]; rewrite (@new_events_app _ _ _ E) in Hin;
      simpl in Hin; intuition discriminate.
  - intros store text response Ho Hm Hw Hr.
    apply open_cache_fst in Ho.
    pose proof (proj2 (dict_mem_get store (zipcode site)) Hm) as Hg.
    pose proof (get_nearby_places_frame_miss site w Ho Hg Hw Hr) as E.
    unfold get_nearby_places, bind. rewrite E. cbn [fst snd].
    set (w' := mkWorld _ _ _ _).
    assert (Ho' : loaded (cache_file w') = JDict store) by exact Ho.
    repeat split.
    + now apply open_cache_fst.
    + rewrite (get_nearby_places_frame_miss site w' Ho' Hg Hw Hr). cbn [snd].
      now apply new_events_app.
Qed.

End PlacesFacts.

Lemma get_nearby_places_never_persists_witness :
  let w' := snd (get_nearby_places "KEY" isle_royale places_world) in
  cache_file w' = Absent
  /\ fst (get_nearby_places "KEY" isle_royale places_world)
     = Ok (JDict [("searchResults", JList [])])
  /\ fst (open_cache w') = Ok (JDict [])
  /\ new_events w' (snd (get_nearby_places "KEY" isle_royale w'))
     = [EvRead; EvPrint "Fetching";
        EvGet places_url (places_params "KEY" isle_royale)].
Proof.
  cbv zeta.
  destruct (@get_nearby_places_never_persists "KEY" isle_royale places_world)
    as (H1 & _ & H3).
  destruct (H3 [] _ (JDict [("searchResults", JList [])])
               eq_refl eq_refl eq_refl eq_refl) as (_ & H4 & H5 & H6).
  exact (conj H1 (conj H4 (conj H5 H6))).
Defined.

(** ** The interactive loop *)

Section LoopFacts.

Variable API_KEY : string.
Variable find_state_listing : json -> option (list (string * string)).
Variable find_park_listing : json -> option (list (option string)).
Variable find_site_page : json -> option site_page.
Variable py_repr : json -> string.

(** "exit" at the state prompt ends the outer loop. *)
Lemma state_loop_exit (fuel : nat) (states_dict : dict string) (w : world)
      (line : string) (rest : list string) :
  stdin w = line :: rest -> lower line = "exit" ->
  state_loop API_KEY find_park_listing find_site_page py_repr
             (S fuel) states_dict w
  = (Ok tt, mkWorld (cache_file w) (web w) rest (log w ++ [EvInput state_prompt])).
Proof.
  intros Hs Hl. simpl. unfold bind, input. rewrite Hs, Hl. reflexivity.
Qed.

(** A line that is neither "exit" nor a state of the site is refused, and
    the state prompt comes again. *)
Lemma state_loop_unknown (fuel : nat) (states_dict : dict string) (w : world)
      (line : string) (rest : list string) :
  stdin w = line :: rest -> lower line <> "exit" ->
  dict_mem states_dict (lower (lower line)) = false ->
  state_loop API_KEY find_park_listing find_site_page py_repr
             (S fuel) states_dict w
  = state_loop API_KEY find_park_listing find_site_page py_repr
               fuel states_dict
               (mkWorld (cache_file w) (web w) rest
                  (log w ++ [EvInput state_prompt;
                             EvPrint "[Error]: Enter proper state name"])).
Proof.
  intros Hs Hl Hm. cbn [state_loop]. unfold bind at 1. unfold input at 1.
  rewrite Hs. apply String.eqb_neq in Hl. rewrite Hl, contains_keys, Hm.
  unfold bind, print, emit. simpl. now rewrite <- List.app_assoc.
Qed.

(** "exit" at the site prompt sets [temp] and leaves the inner loop. *)
Lemma site_loop_exit (fuel : nat) (sites_list : list NationalSite) (temp : Z)
      (w : world) (line : string) (rest : list string) :
  stdin w = line :: rest -> lower line = "exit" ->
  site_loop API_KEY py_repr (S fuel) sites_list temp w
  = (Ok 1%Z, mkWorld (cache_file w) (web w) rest (log w ++ [EvInput site_prompt])).
Proof.
  intros Hs Hl. simpl. unfold bind, input. rewrite Hs, Hl. reflexivity.
Qed.

(** "back" leaves the inner loop with [temp] as it was. *)
Lemma site_loop_back (fuel : nat) (sites_list : list NationalSite) (temp : Z)
      (w : world) (line : string) (rest : list string) :
  stdin w = line :: rest -> lower line = "back" ->
  site_loop API_KEY py_repr (S fuel) sites_list temp w
  = (Ok temp, mkWorld (cache_file w) (web w) rest (log w ++ [EvInput site_prompt])).
Proof.
  intros Hs Hl. simpl. unfold bind, input. rewrite Hs, Hl. reflexivity.
Qed.

(** A line that is no command and not numeric is refused, and the site
    prompt comes again. *)
Lemma site_loop_not_numeric (fuel : nat) (sites_list : list NationalSite)
      (temp : Z) (w : world) (line : string) (rest : list string) :
  stdin w = line :: rest -> lower line <> "exit" -> lower line <> "back" ->
  isnumeric (lower line) = false ->
  site_loop API_KEY py_repr (S fuel) sites_list temp w
  = site_loop API_KEY py_repr fuel sites_list temp
      (mkWorld (cache_file w) (web w) rest
         (log w ++ [EvInput site_prompt;
                    EvPrint ("[Error] Enter proper state name " ++ newline)])).
Proof.
  intros Hs He Hb Hn. cbn [site_loop]. unfold bind at 1. unfold input at 1.
  rewrite Hs. apply String.eqb_neq in He, Hb. rewrite He, Hb, Hn.
  unfold bind, print, emit. simpl. now rewrite <- List.app_assoc.
Qed.

(** A number outside [1..len(sites_list)], typed with no more digits
    than [int] converts, is refused, and the site prompt comes again. *)
Lemma site_loop_out_of_range (fuel : nat) (sites_list : list NationalSite)
      (temp : Z) (w : world) (line : string) (rest : list string) (n : Z) :
  stdin w = line :: rest -> lower line <> "exit" -> lower line <> "back" ->
  isnumeric (lower line) = true ->
  String.length (lower line) <= int_max_str_digits ->
  py_int (lower line) = Ok n ->
  (n <= 0 \/ Z.of_nat (List.length sites_list) < n)%Z ->
  site_loop API_KEY py_repr (S fuel) sites_list temp w
  = site_loop API_KEY py_repr fuel sites_list temp
      (mkWorld (cache_file w) (web w) rest
         (log w ++ [EvInput site_prompt; EvPrint "[Error] Invalid input"])).
Proof.
  intros Hs He Hb Hn _ Hi Hr. cbn [site_loop]. unfold bind at 1. unfold input at 1.
  rewrite Hs. apply String.eqb_neq in He, Hb. rewrite He, Hb, Hn.
  unfold bind at 1, lift at 1. rewrite Hi.
  assert (((0 <? n) && (n <=? Z.of_nat (List.length sites_list)))%Z%bool = false)
    as -> by lia.
  unfold bind, print, emit. simpl. now rewrite <- List.app_assoc.
Qed.

(** A line of decimal digits, no more of them than [int] converts, whose
    value [n] is from 1 to [len(sites_list)] selects the site at index
    [n - 1], also when it is typed with zeros in front: the places near
    this site are fetched, their [searchResults] are read, the header
    with the name of the site is printed and the places are listed; then
    the site prompt comes again. *)
Lemma site_loop_select (fuel : nat) (sites_list : list NationalSite)
      (temp : Z) (w : world) (line : string) (rest : list string) (n : Z)
      (site : NationalSite) :
  stdin w = line :: rest -> lower line <> "exit" -> lower line <> "back" ->
  isnumeric (lower line) = true ->
  String.length (lower line) <= int_max_str_digits ->
  py_int (lower line) = Ok n -> (0 < n)%Z ->
  nth_error sites_list (Z.to_nat (n - 1)) = Some site ->
  site_loop API_KEY py_repr (S fuel) sites_list temp w
  = ((response <- get_nearby_places API_KEY site ;;
      nearbyplaces <- getitem response "searchResults" ;;
      print (dashes 34) ;;
      print ("Places near " ++ name site)%string ;;
      print (dashes 34) ;;
      places <- iterate nearbyplaces ;;
      print_places py_repr places) ;;
     site_loop API_KEY py_repr fuel sites_list temp)
      (mkWorld (cache_file w) (web w) rest (log w ++ [EvInput site_prompt])).
Proof.
  intros Hs He Hb Hn _ Hi Hp Hnth.
  assert (Hlen : (n <= Z.of_nat (List.length sites_list))%Z).
  { assert (Z.to_nat (n - 1) < List.length sites_list)
      by (apply nth_error_Some; congruence).
    lia. }
  cbn [site_loop]. unfold bind at 1. unfold input at 1.
  rewrite Hs. apply String.eqb_neq in He, Hb. rewrite He, Hb, Hn.
  unfold bind at 1, lift at 1. rewrite Hi.
  assert (((0 <? n) && (n <=? Z.of_nat (List.length sites_list)))%Z%bool = true)
    as -> by lia.
  unfold bind at 1, lift at 1. unfold show_site. rewrite Hnth. reflexivity.
Qed.

End LoopFacts.

(** C9 fails on the code at the site prompt.  There "exit" only sets
    [temp] and leaves the inner loop; nothing reads [temp], so the outer
    loop goes on and asks for a state again.  On a site with the state
    michigan, the input "michigan", "exit" does not end the program: its
    last act is the state prompt, at which the input is at its end.  It
    takes "exit" at the state prompt to end it.  A numeric character that
    is no digit is not refused either: [int] raises on it. *)
Theorem exit_at_site_prompt_does_not_end_program :
  (forall API_KEY py_repr fuel sites_list temp file web rest log,
      site_loop API_KEY py_repr (S fuel) sites_list temp
                (mkWorld file web ("exit" :: rest) log)
      = (Ok 1%Z, mkWorld file web rest (log ++ [EvInput site_prompt])))
  /\ (let r := demo_main (demo_world ["michigan"; "exit"]) in
      fst r = Raise EOFError /\ last_event (snd r) = Some (EvInput state_prompt))
  /\ fst (demo_main (demo_world ["michigan"; "exit"; "exit"])) = Ok tt
  /\ fst (demo_main (demo_world ["exit"])) = Ok tt
  /\ fst (demo_main (demo_world ["michigan"; superscript_two])) = Raise ValueError.
Proof.
  split; [|cbv zeta; repeat split; vm_compute; reflexivity].
  intros. now apply site_loop_exit with (line := "exit").
Qed.

(** ** The loops have fuel enough *)

Lemma keeps_ret {A} (a : A) : keeps_stdin (ret a).
Proof. intros w. split; [discriminate | reflexivity]. Qed.

Lemma keeps_raise {A} (e : exn) : e <> OutOfFuel -> keeps_stdin (@raise A e).
Proof. intros N w. split; [simpl; congruence | reflexivity]. Qed.

Lemma keeps_bind {A B} (c : M A) (k : A -> M B) :
  keeps_stdin c -> (forall a, keeps_stdin (k a)) -> keeps_stdin (bind c k).
Proof.
  intros Hc Hk w. unfold bind. generalize (Hc w).
  destruct (c w) as [[a|e] w']; simpl; intros [Hn Hs].
  - destruct (Hk a w') as [Hn' Hs']. split; [exact Hn' | congruence].
  - split; [intros [= ->]; now apply Hn | assumption].
Qed.

Lemma keeps_found {A} (o : option A) : keeps_stdin (found o).
Proof.
  destruct o; [apply keeps_ret | apply keeps_raise; discriminate].
Qed.

Lemma keeps_subscript {V} (d : dict V) (k : string) : keeps_stdin (lift (subscript d k)).
Proof.
  intros w. unfold lift, subscript. destruct (dict_get d k); simpl;
    split; (discriminate || reflexivity).
Qed.

Lemma keeps_print (line : string) : keeps_stdin (print line).
Proof. intros w. split; [discriminate | reflexivity]. Qed.

Lemma keeps_requests_get (url : string) (params : dict json) :
  keeps_stdin (requests_get url params).
Proof.
  intros w. unfold requests_get. destruct (web w url params); simpl;
    split; (discriminate || reflexivity).
Qed.

Lemma keeps_json_loads (s : string) : keeps_stdin (json_loads s).
Proof.
  unfold json_loads. destruct (Json.loads s);
    [apply keeps_ret | apply keeps_raise; discriminate].
Qed.

Lemma keeps_open_cache : keeps_stdin open_cache.
Proof.
  intros w. rewrite open_cache_loaded. split; [discriminate | reflexivity].
Qed.

Lemma keeps_save_cache (v : json) : keeps_stdin (save_cache v).
Proof. intros w. split; [discriminate | reflexivity]. Qed.

Lemma keeps_keys (v : json) : keeps_stdin (keys v).
Proof.
  destruct v; simpl; try (apply keeps_raise; discriminate). apply keeps_ret.
Qed.

Lemma keeps_getitem (v : json) (k : string) : keeps_stdin (getitem v k).
Proof.
  destruct v; simpl; try (apply keeps_raise; discriminate).
  apply keeps_subscript.
Qed.

Lemma keeps_setitem (v : json) (k : string) (x : json) :
  keeps_stdin (setitem v k x).
Proof.
  destruct v; simpl; try (apply keeps_raise; discriminate). apply keeps_ret.
Qed.

Lemma keeps_iterate (v : json) : keeps_stdin (iterate v).
Proof.
  destruct v; simpl; try (apply keeps_raise; discriminate); apply keeps_ret.
Qed.

Create HintDb keeps.
#[local] Hint Resolve keeps_ret keeps_found keeps_subscript keeps_print
  keeps_requests_get keeps_json_loads keeps_open_cache keeps_save_cache
  keeps_keys keeps_getitem keeps_setitem keeps_iterate : keeps.

Ltac keeps :=
  repeat first
    [ progress auto with keeps
    | apply keeps_bind; [|intros]
    | apply keeps_raise; discriminate
    | match goal with
      | |- keeps_stdin (if ?b then _ else _) => destruct b
      | |- keeps_stdin (match ?x with _ => _ end) => destruct x
      end ].

Lemma keeps_make_request_with_cache (baseurl : string) :
  keeps_stdin (make_request_with_cache baseurl).
Proof. unfold make_request_with_cache. keeps. Qed.

#[local] Hint Resolve keeps_make_request_with_cache : keeps.

Section FuelFacts.

Variable API_KEY : string.
Variable find_state_listing : json -> option (list (string * string)).
Variable find_park_listing : json -> option (list (option string)).
Variable find_site_page : json -> option site_page.
Variable py_repr : json -> string.

Lemma keeps_build_state_url_dict :
  keeps_stdin (build_state_url_dict find_state_listing).
Proof. unfold build_state_url_dict. keeps. Qed.

Lemma keeps_get_site_instance (site_url : string) :
  keeps_stdin (get_site_instance find_site_page site_url).
Proof. unfold get_site_instance. keeps. Qed.

Lemma keeps_park_loop (l : list (option string)) (acc : list NationalSite) :
  keeps_stdin (park_loop find_site_page l acc).
Proof.
  revert acc; induction l as [|i l IH]; intros acc; simpl; keeps.
Qed.

Lemma keeps_get_sites_for_state (state_url : string) :
  keeps_stdin (get_sites_for_state find_park_listing find_site_page state_url).
Proof.
  unfold get_sites_for_state. keeps; try apply keeps_park_loop.
Qed.

Lemma keeps_get_nearby_places (site : NationalSite) :
  keeps_stdin (get_nearby_places API_KEY site).
Proof. unfold get_nearby_places, get_nearby_places_frame. keeps. Qed.

Lemma keeps_print_sites (sites_list : list NationalSite) (i : Z) :
  keeps_stdin (print_sites sites_list i).
Proof. revert i; induction sites_list; intros i; simpl; keeps. Qed.

Lemma keeps_print_place (place : json) : keeps_stdin (print_place py_repr place).
Proof. unfold print_place. keeps. Qed.

Lemma keeps_print_places (places : list json) :
  keeps_stdin (print_places py_repr places).
Proof.
  induction places; simpl; keeps; try apply keeps_print_place.
Qed.

Lemma keeps_show_site (sites_list : list NationalSite) (n : Z) :
  keeps_stdin (show_site API_KEY py_repr sites_list n).
Proof.
  unfold show_site. keeps;
    try apply keeps_get_nearby_places; try apply keeps_print_places.
Qed.

Lemma keeps_py_int (s : string) : keeps_stdin (lift (py_int s)).
Proof.
  intros w. unfold lift, py_int. destruct (all_chars Json.is_digit s); simpl;
    split; (discriminate || reflexivity).
Qed.

Ltac stdin_len :=
  repeat match goal with
         | H : stdin _ = _ |- _ => rewrite H in *; clear H
         end;
  simpl in *; lia.

(** With more fuel than lines to read, the inner loop ends by itself, by
    a [break] or an exception of the program, and reads lines only. *)
Lemma site_loop_fuel (fuel : nat) (sites_list : list NationalSite) (temp : Z)
      (w : world) (res : result Z) (w' : world) :
  List.length (stdin w) < fuel ->
  site_loop API_KEY py_repr fuel sites_list temp w = (res, w') ->
  res <> Raise OutOfFuel /\ List.length (stdin w') <= List.length (stdin w).
Proof.
  revert w res w'; induction fuel as [|fuel IH]; intros w res w' L H; [lia|].
  cbn [site_loop] in H. unfold bind at 1 in H. unfold input at 1 in H.
  destruct (stdin w) as [|line rest] eqn:Hs.
  { inversion H; subst. simpl. rewrite Hs. split; [discriminate | simpl; lia]. }
  simpl in L.
  set (w1 := mkWorld _ _ rest _) in H.
  assert (L1 : List.length (stdin w1) < fuel) by (simpl; lia).
  assert (S1 : List.length (stdin w1) <= S (List.length rest)) by (simpl; lia).
  destruct (String.eqb (lower line) "exit");
    [inversion H; subst; split; [discriminate | assumption]|].
  destruct (String.eqb (lower line) "back");
    [inversion H; subst; split; [discriminate | assumption]|].
  assert (K : forall (c : M unit) (w0 : world),
             keeps_stdin c -> List.length (stdin w0) < fuel ->
             bind c (fun _ => site_loop API_KEY py_repr fuel sites_list temp) w0
             = (res, w') ->
             res <> Raise OutOfFuel
             /\ List.length (stdin w') <= List.length (stdin w0)).
  { intros c w0 Hc L0. unfold bind. generalize (Hc w0).
    destruct (c w0) as [[[]|e] w2]; simpl; intros [Hn Hk] E.
    - rewrite <- Hk. eapply IH; [|exact E]. now rewrite Hk.
    - inversion E; subst. split; [intros [= ->]; now apply Hn | rewrite Hk; lia]. }
  destruct (isnumeric (lower line)).
  - unfold bind at 1 in H. generalize (keeps_py_int (lower line) w1).
    destruct (lift (py_int (lower line)) w1) as [[n|e] w2] eqn:E; simpl;
      intros [Hn Hk];
      [|inversion H; subst; split; [intros [= ->]; now apply Hn | lia]].
    assert (L2 : List.length (stdin w2) < fuel) by (rewrite Hk; lia).
    destruct ((0 <? n)%Z && (n <=? Z.of_nat (List.length sites_list))%Z)%bool.
    + unfold bind at 1 in H. generalize (keeps_py_int (lower line) w2).
      destruct (lift (py_int (lower line)) w2) as [[n'|e'] w3] eqn:E'; simpl;
        intros [Hn' Hk'];
        [|inversion H; subst; split;
          [intros [= ->]; now apply Hn' | rewrite Hk'; lia]].
      destruct (K (show_site API_KEY py_repr sites_list n') w3) as [K1 K2];
        [apply keeps_show_site | stdin_len | exact H |].
      split; [exact K1 | stdin_len].
    + destruct (K (print "[Error] Invalid input") w2) as [K1 K2];
        [apply keeps_print | stdin_len | exact H |].
      split; [exact K1 | stdin_len].
  - destruct (K (print ("[Error] Enter proper state name " ++ newline)%string) w1)
      as [K1 K2]; [apply keeps_print | stdin_len | exact H |].
    split; [exact K1 | stdin_len].
Qed.

(** So has the outer loop: it ends by "exit" or by an exception of the
    program. *)
Lemma state_loop_fuel (fuel : nat) (states_dict : dict string)
      (w : world) (res : result unit) (w' : world) :
  List.length (stdin w) < fuel ->
  state_loop API_KEY find_park_listing find_site_page py_repr fuel states_dict w
  = (res, w') ->
  res <> Raise OutOfFuel.
Proof.
  revert w res w'; induction fuel as [|fuel IH]; intros w res w' L H; [lia|].
  cbn [state_loop] in H. unfold bind at 1 in H. unfold input at 1 in H.
  destruct (stdin w) as [|line rest] eqn:Hs.
  { inversion H; subst. discriminate. }
  simpl in L.
  set (w1 := mkWorld _ _ rest _) in H.
  assert (L1 : List.length (stdin w1) < fuel) by (simpl; lia).
  destruct (String.eqb (lower line) "exit");
    [inversion H; subst; discriminate|].
  assert (K : forall A (c : M A) (k : A -> M unit) (w0 : world),
             keeps_stdin c -> List.length (stdin w0) < fuel ->
             (forall a w2 res2 w3, List.length (stdin w2) < fuel ->
                k a w2 = (res2, w3) -> res2 <> Raise OutOfFuel) ->
             forall res0 w4, bind c k w0 = (res0, w4) -> res0 <> Raise OutOfFuel).
  { intros A c k w0 Hc L0 Hk res0 w4. unfold bind. generalize (Hc w0).
    destruct (c w0) as [[a|e] w2]; simpl; intros [Hn Hk'] E.
    - eapply Hk; [|exact E]. now rewrite Hk'.
    - inversion E; subst. intros [= ->]; now apply Hn. }
  destruct (contains (dict_keys states_dict) (lower (lower line))).
  - revert H. apply K; [apply keeps_subscript | exact L1 |].
    intros state_url w2 res2 w3 L2.
    apply K; [apply keeps_get_sites_for_state | exact L2 |].
    intros sites_list w4 res4 w5 L4.
    apply K; [apply keeps_print | exact L4 |]. intros _ w6 res6 w7 L6.
    apply K; [apply keeps_print | exact L6 |]. intros _ w8 res8 w9 L8.
    apply K; [apply keeps_print | exact L8 |]. intros _ w10 res10 w11 L10.
    apply K; [apply keeps_print_sites | exact L10 |]. intros _ w12 res12 w13 L12.
    unfold bind.
    destruct (site_loop API_KEY py_repr fuel sites_list 0 w12) as [[temp|e] w14] eqn:E.
    + destruct (site_loop_fuel _ _ _ L12 E) as [_ L14].
      intros E'. eapply IH; [|exact E']. lia.
    + destruct (site_loop_fuel _ _ _ L12 E) as [Hn _].
      intros [= <- <-]. intros [= ->]. now apply Hn.
  - revert H. apply K; [apply keeps_print | exact L1 |].
    intros _ w2 res2 w3 L2 E. eapply IH; eassumption.
Qed.

(** The fuel that [main] gives its loop is enough: the program never
    stops for want of fuel. *)
Theorem main_never_out_of_fuel (w : world) :
  fst (main API_KEY find_state_listing find_park_listing find_site_page
            py_repr w)
  <> Raise OutOfFuel.
Proof.
  unfold main, bind. generalize (keeps_build_state_url_dict w).
  destruct (build_state_url_dict find_state_listing w) as [[states_dict|e] w1];
    cbn [fst snd]; intros [Hn Hk]; [|intros [= ->]; now apply Hn].
  match goal with
  | |- fst ?r <> _ => destruct r as [res w2] eqn:E
  end.
  cbn [fst]. eapply state_loop_fuel; [|exact E]. lia.
Qed.

End FuelFacts.

(** ** More on the cache and on the loop *)

(** [open_cache] returns in every state of the disk: it never raises, it
    only reads, and what it returns is a well-formed value. *)
Theorem open_cache_total (w : world) :
  exists v, open_cache w = (Ok v, emit EvRead w) /\ wf_json v.
Proof.
  exists (loaded (cache_file w)). split; [apply open_cache_loaded | apply loaded_wf].
Qed.

(** The spec's second scenario: without a cache file, one fetch leaves a
    file holding exactly one key, the requested URL, with the body. *)
Theorem first_fetch_creates_one_entry (u : string) (w : world) (text : string) :
  cache_file w = Absent -> web w u [] = Some text ->
  let w1 := snd (make_request_with_cache u w) in
  cache_file w1 = Text (Json.dumps (JDict [(u, JStr text)]))
  /\ fst (open_cache w1) = Ok (JDict [(u, JStr text)]).
Proof.
  intros Hf Hw. cbv zeta.
  assert (Hl : loaded (cache_file w) = JDict []) by now rewrite Hf.
  rewrite (make_request_miss u w Hl eq_refl Hw). cbn [snd cache_file dict_set].
  split; [reflexivity|]. apply open_cache_fst, loaded_dumps.
  repeat constructor. simpl. tauto.
Qed.

Lemma first_fetch_creates_one_entry_witness :
  fst (open_cache (snd (make_request_with_cache "https://example.test/a" fresh_world)))
  = Ok (JDict [("https://example.test/a", JStr "BODY")]).
Proof.
  exact (proj2 (@first_fetch_creates_one_entry
                  "https://example.test/a" fresh_world "BODY" eq_refl eq_refl)).
Defined.

(** A failed request is not caught: the exception goes to the caller,
    after one GET, and the cache file is as it was. *)
Theorem failed_request_propagates (u : string) (w : world) (store : dict json) :
  fst (open_cache w) = Ok (JDict store) -> dict_mem store u = false ->
  web w u [] = None ->
  let r := make_request_with_cache u w in
  fst r = Raise RequestException
  /\ cache_file (snd r) = cache_file w
  /\ new_events w (snd r) = [EvRead; EvPrint "Fetching"; EvGet u []].
Proof.
  intros Ho Hm Hw. cbv zeta. apply open_cache_fst in Ho.
  rewrite (make_request_miss_failed u w Ho (proj2 (dict_mem_get store u) Hm) Hw).
  repeat split. now apply new_events_app.
Qed.

Lemma failed_request_propagates_witness :
  let r := make_request_with_cache "https://example.test/b" fresh_world in
  fst r = Raise RequestException /\ cache_file (snd r) = Absent.
Proof.
  cbv zeta.
  destruct (@failed_request_propagates "https://example.test/b" fresh_world []
              eq_refl eq_refl eq_refl) as (H1 & H2 & _).
  exact (conj H1 H2).
Defined.

Ltac strings_differ :=
  let H := fresh in intro H; vm_compute in H; discriminate H.

Lemma state_loop_exit_witness :
  fst (state_loop "KEY" demo_park_listing demo_site_page (fun _ => EmptyString)
                  1 [] (demo_world ["EXIT"]))
  = Ok tt.
Proof.
  rewrite (@state_loop_exit "KEY" demo_park_listing demo_site_page
             (fun _ => EmptyString) 0 [] (demo_world ["EXIT"]) "EXIT" []
             eq_refl eq_refl).
  reflexivity.
Defined.

Lemma state_loop_unknown_witness :
  state_loop "KEY" demo_park_listing demo_site_page (fun _ => EmptyString)
             2 [] (demo_world ["atlantis"; "exit"])
  = state_loop "KEY" demo_park_listing demo_site_page (fun _ => EmptyString)
               1 []
               (mkWorld Absent (web (demo_world [])) ["exit"]
                  [EvInput state_prompt;
                   EvPrint "[Error]: Enter proper state name"]).
Proof.
  apply (@state_loop_unknown "KEY" demo_park_listing demo_site_page
           (fun _ => EmptyString) 1 [] (demo_world ["atlantis"; "exit"])
           "atlantis" ["exit"] eq_refl ltac:(strings_differ) eq_refl).
Defined.

Lemma site_loop_back_witness :
  fst (site_loop "KEY" (fun _ => EmptyString) 1 [isle_royale] 0
                 (demo_world ["Back"]))
  = Ok 0%Z.
Proof.
  rewrite (@site_loop_back "KEY" (fun _ => EmptyString) 0 [isle_royale] 0%Z
             (demo_world ["Back"]) "Back" [] eq_refl eq_refl).
  reflexivity.
Defined.

Lemma site_loop_not_numeric_witness :
  site_loop "KEY" (fun _ => EmptyString) 2 [isle_royale] 0 (demo_world ["one"; "back"])
  = site_loop "KEY" (fun _ => EmptyString) 1 [isle_royale] 0
      (mkWorld Absent (web (demo_world [])) ["back"]
         [EvInput site_prompt;
          EvPrint ("[Error] Enter proper state name " ++ newline)]).
Proof.
  apply (@site_loop_not_numeric "KEY" (fun _ => EmptyString) 1 [isle_royale] 0%Z
           (demo_world ["one"; "back"]) "one" ["back"] eq_refl
           ltac:(strings_differ) ltac:(strings_differ) eq_refl).
Defined.

Lemma site_loop_out_of_range_witness :
  site_loop "KEY" (fun _ => EmptyString) 2 [isle_royale] 0 (demo_world ["2"; "back"])
  = site_loop "KEY" (fun _ => EmptyString) 1 [isle_royale] 0
      (mkWorld Absent (web (demo_world [])) ["back"]
         [EvInput site_prompt; EvPrint "[Error] Invalid input"]).
Proof.
  apply (@site_loop_out_of_range "KEY" (fun _ => EmptyString) 1 [isle_royale] 0%Z
           (demo_world ["2"; "back"]) "2" ["back"] 2%Z eq_refl
           ltac:(strings_differ) ltac:(strings_differ) eq_refl
           (proj1 (Nat.leb_le 1 int_max_str_digits) eq_refl) eq_refl).
  right. simpl. lia.
Defined.

Lemma site_loop_select_witness :
  fst (site_loop "KEY" (fun _ => EmptyString) 2 [isle_royale] 0
                 (demo_world ["01"; "back"]))
  = Ok 0%Z.
Proof.
  rewrite (@site_loop_select "KEY" (fun _ => EmptyString) 1 [isle_royale] 0%Z
             (demo_world ["01"; "back"]) "01" ["back"] 1%Z isle_royale eq_refl
             ltac:(strings_differ) ltac:(strings_differ) eq_refl
             (proj1 (Nat.leb_le 2 int_max_str_digits) eq_refl) eq_refl
             eq_refl eq_refl).
  reflexivity.
Defined.

(** ** The cache only grows *)

Lemma cache_le_refl (w : world) : cache_le w w.
Proof. intros u body H; exact H. Qed.

Lemma cache_le_trans (w1 w2 w3 : world) :
  cache_le w1 w2 -> cache_le w2 w3 -> cache_le w1 w3.
Proof. intros H1 H2 u body H. auto. Qed.

Lemma cache_le_same_file (w w' : world) :
  cache_file w' = cache_file w -> cache_le w w'.
Proof. intros E u body (store & Hl & Hg). exists store. now rewrite E. Qed.

(** What a call of [make_request_with_cache] that returns leaves behind:
    the body it returned is cached under the URL, and what was cached
    before still is. *)
Lemma make_request_caches (u : string) (w : world) (body : json) (w1 : world) :
  make_request_with_cache u w = (Ok body, w1) ->
  cached w1 u body /\ cache_le w w1.
Proof.
  intros H.
  destruct (loaded (cache_file w)) as [| | | | |store|] eqn:Hl;
    try (rewrite make_request_not_dict in H by (rewrite Hl; discriminate);
         discriminate).
  destruct (dict_get store u) as [b|] eqn:Hg.
  - rewrite (make_request_hit u w Hl Hg) in H. inversion H; subst.
    split; [exists store; auto | now apply cache_le_same_file].
  - destruct (web w u []) as [text|] eqn:Hw.
    + rewrite (make_request_miss u w Hl Hg Hw) in H. inversion H; subst.
      assert (Hl1 : loaded (Text (Json.dumps (JDict (dict_set store u (JStr text)))))
                    = JDict (dict_set store u (JStr text))).
      { apply loaded_dumps, wf_json_set; [|constructor].
        rewrite <- Hl. apply loaded_wf. }
      split.
      * eexists. split; [exact Hl1 | apply dict_get_set].
      * intros k v (store0 & Hl0 & Hg0). rewrite Hl in Hl0. inversion Hl0; subst.
        eexists. split; [exact Hl1|].
        rewrite dict_get_set_other; [exact Hg0 | congruence].
    + rewrite (make_request_miss_failed u w Hl Hg Hw) in H. discriminate.
Qed.


(** ** What was fetched is served from the cache *)

Lemma offline_refl (w : world) : offline w w.
Proof. split; [reflexivity|]. exists []. now rewrite List.app_nil_r. Qed.

Lemma offline_trans (w1 w2 w3 : world) :
  offline w1 w2 -> offline w2 w3 -> offline w1 w3.
Proof.
  intros (F1 & es1 & L1 & E1) (F2 & es2 & L2 & E2). split; [congruence|].
  exists (es1 ++ es2). split.
  - now rewrite L2, L1, List.app_assoc.
  - now rewrite forallb_app, E1, E2.
Qed.

Lemma offline_cache_le (w w' w0 : world) :
  offline w w' -> cache_le w0 w -> cache_le w0 w'.
Proof.
  intros [F _] H. eapply cache_le_trans; [exact H|]. now apply cache_le_same_file.
Qed.

Lemma replays_bind {A B} (c : M A) (k : A -> M B) :
  replays c -> (forall a, replays (k a)) -> replays (bind c k).
Proof.
  intros Hc Hk w r w1. unfold bind at 1.
  destruct (c w) as [[a|e] wa] eqn:Ec; [|discriminate]. intros Ek.
  destruct (Hc _ _ _ Ec) as [L1 R1]. destruct (Hk a _ _ _ Ek) as [L2 R2].
  split; [eapply cache_le_trans; eassumption|].
  intros w2 L.
  destruct (R1 w2) as (w2a & E1 & O1); [eapply cache_le_trans; eassumption|].
  destruct (R2 w2a) as (w2' & E2 & O2); [eapply offline_cache_le; eassumption|].
  exists w2'. split; [|eapply offline_trans; eassumption].
  unfold bind. now rewrite E1.
Qed.

Lemma replays_pure {A} (c : M A) :
  (forall w w', c w = (fst (c w'), w)) -> replays c.
Proof.
  intros H w r w1 E. rewrite (H w w) in E. inversion E; subst.
  split; [apply cache_le_refl|].
  intros w2 _. exists w2. split; [|apply offline_refl].
  rewrite (H w2 w1). now rewrite H1.
Qed.

Lemma replays_ret {A} (a : A) : replays (ret a).
Proof. now apply replays_pure. Qed.

Lemma replays_found {A} (o : option A) : replays (found o).
Proof. apply replays_pure. now destruct o. Qed.

Lemma replays_print (line : string) : replays (print line).
Proof.
  intros w r w1 E. inversion E; subst.
  split; [now apply cache_le_same_file|].
  intros w2 _. eexists. split; [reflexivity|].
  split; [reflexivity|]. now exists [EvPrint line].
Qed.

(** A URL that [make_request_with_cache] has answered it answers again
    with the same body, from the cache alone, as long as the cache has
    kept its entries. *)
Lemma replays_make_request_with_cache (u : string) :
  replays (make_request_with_cache u).
Proof.
  intros w body w1 E. destruct (make_request_caches _ _ E) as [C L].
  split; [exact L|].
  intros w2 L2. destruct (L2 _ _ C) as (store & Hl & Hg).
  eexists. split; [apply (make_request_hit u w2 Hl Hg)|].
  split; [reflexivity|].
  exists [EvRead; EvPrint "Using CACHE"]. split; [|reflexivity].
  simpl. now rewrite <- List.app_assoc.
Qed.

Ltac replays :=
  repeat first
    [ apply replays_make_request_with_cache
    | apply replays_ret
    | apply replays_found
    | apply replays_print
    | apply replays_bind; [|intros] ].

Section Replay.

Variable find_state_listing : json -> option (list (string * string)).
Variable find_park_listing : json -> option (list (option string)).
Variable find_site_page : json -> option site_page.

Lemma replays_get_site_instance (site_url : string) :
  replays (get_site_instance find_site_page site_url).
Proof. unfold get_site_instance. replays. Qed.

Lemma replays_park_loop (l : list (option string)) (acc : list NationalSite) :
  replays (park_loop find_site_page l acc).
Proof.
  revert acc; induction l as [|i l IH]; intros acc; simpl; replays;
    try apply replays_get_site_instance; try apply IH.
Qed.

(** The sites of a state that has been listed once are listed again
    without any request and without a write of the cache file, with the
    same result, in every later state of the machine in which the cache
    has kept its entries: at once, or after other fetches, or in a new
    run of the program. *)
Theorem get_sites_for_state_replays
        (state_url : string) (w w1 w2 : world) (sites : list NationalSite) :
  get_sites_for_state find_park_listing find_site_page state_url w
  = (Ok sites, w1) ->
  cache_le w1 w2 ->
  let r := get_sites_for_state find_park_listing find_site_page state_url w2 in
  fst r = Ok sites
  /\ cache_file (snd r) = cache_file w2
  /\ forallb local_event (new_events w2 (snd r)) = true.
Proof.
  intros E L. cbv zeta.
  assert (R : replays (get_sites_for_state find_park_listing find_site_page state_url)).
  { unfold get_sites_for_state. replays; try apply replays_park_loop. }
  destruct (R _ _ _ E) as [_ R2].
  destruct (R2 w2 L) as (w2' & E2 & F & es & Hlog & Hes).
  rewrite E2. cbn [fst snd]. repeat split; [exact F|].
  now rewrite (@new_events_app _ _ _ Hlog).
Qed.

(** So is the dict of the states: once built, it is built again from the
    cache alone. *)
Theorem build_state_url_dict_replays
        (w w1 w2 : world) (states_dict : dict string) :
  build_state_url_dict find_state_listing w = (Ok states_dict, w1) ->
  cache_le w1 w2 ->
  let r := build_state_url_dict find_state_listing w2 in
  fst r = Ok states_dict
  /\ cache_file (snd r) = cache_file w2
  /\ forallb local_event (new_events w2 (snd r)) = true.
Proof.
  intros E L. cbv zeta.
  assert (R : replays (build_state_url_dict find_state_listing)).
  { unfold build_state_url_dict. replays. }
  destruct (R _ _ _ E) as [_ R2].
  destruct (R2 w2 L) as (w2' & E2 & F & es & Hlog & Hes).
  rewrite E2. cbn [fst snd]. repeat split; [exact F|].
  now rewrite (@new_events_app _ _ _ Hlog).
Qed.

End Replay.

(** ** When the key is unique *)

Lemma append_inv_head (p a b : string) : (p ++ a = p ++ b)%string -> a = b.
Proof. induction p as [|c p IH]; simpl; [easy|]. intros [= H]. auto. Qed.

(** A string without separator is read off the front of a text up to the
    first separator. *)
Lemma no_sep_split (x y t1 t2 : string) :
  no_sep x = true -> no_sep y = true -> at_sep t1 -> at_sep t2 ->
  (x ++ t1 = y ++ t2)%string -> x = y /\ t1 = t2.
Proof.
  revert y; induction x as [|c x IH]; intros [|d y]; simpl; intros Hx Hy A1 A2 E.
  - auto.
  - subst t1. simpl in A1. subst d. discriminate.
  - subst t2. simpl in A2. subst c. discriminate.
  - apply andb_prop in Hx, Hy. destruct Hx as [_ Hx], Hy as [_ Hy].
    injection E as -> E. destruct (IH y Hx Hy A1 A2 E) as [-> ->]. auto.
Qed.

Lemma concat_cons (x : string) (l : list string) :
  String.concat "_" (x :: l) = (x ++ joined_tail l)%string.
Proof.
  destruct l as [|y l]; simpl; [|reflexivity].
  induction x; simpl; congruence.
Qed.

Lemma at_sep_joined_tail (l : list string) : at_sep (joined_tail l).
Proof. now destruct l. Qed.

Lemma joined_params_inj (P1 P2 : dict string) :
  plain_params P1 -> plain_params P2 ->
  String.concat "_" (map render_param P1) = String.concat "_" (map render_param P2) ->
  P1 = P2.
Proof.
  revert P2; induction P1 as [|[k1 v1] P1 IH]; intros [|[k2 v2] P2] H1 H2 E.
  - reflexivity.
  - exfalso. simpl map in E. rewrite concat_cons in E. unfold render_param in E.
    simpl in E. destruct k2; discriminate.
  - exfalso. simpl map in E. rewrite concat_cons in E. unfold render_param in E.
    simpl in E. destruct k1; discriminate.
  - simpl map in E. rewrite !concat_cons in E. unfold render_param in E.
    cbn [fst snd] in E. rewrite !append_assoc in E.
    destruct (H1 (k1, v1) (or_introl eq_refl)) as [Hk1 Hv1].
    destruct (H2 (k2, v2) (or_introl eq_refl)) as [Hk2 Hv2].
    cbn [fst snd] in *.
    apply no_sep_split in E; try assumption; try reflexivity.
    destruct E as [-> E]. simpl in E. injection E as E.
    apply no_sep_split in E; try assumption; try apply at_sep_joined_tail.
    destruct E as [-> E]. f_equal.
    apply IH.
    + intros kv I. apply H1. now right.
    + intros kv I. apply H2. now right.
    + clear IH H1 H2. destruct P1 as [|p1 P1], P2 as [|p2 P2];
        try discriminate E; [reflexivity|].
      injection E as E. exact E.
Qed.

Lemma plain_params_perm (P P' : dict string) :
  Permutation P P' -> plain_params P -> plain_params P'.
Proof.
  intros Hp H kv I. apply H. eapply Permutation_in; [|exact I].
  now apply Permutation_sym.
Qed.

(** For parameters without the separator in their keys and values the
    key tells the parameters: two such dicts with one key, for one base
    URL, hold the same pairs. *)
Theorem construct_unique_key_unique_on_plain_params
        (u : string) (P1 P2 : dict string) :
  dict_wf P1 -> dict_wf P2 -> plain_params P1 -> plain_params P2 ->
  construct_unique_key u P1 = construct_unique_key u P2 ->
  Permutation P1 P2.
Proof.
  intros W1 W2 H1 H2 E.
  rewrite !construct_unique_key_items in E by assumption.
  injection E as E. apply append_inv_head in E. simpl in E. injection E as E.
  destruct (Permutation_map_inv _ _ (Permutation_sym (list_sort_perm (map render_param P1))))
    as (Q1 & E1 & Hp1).
  destruct (Permutation_map_inv _ _ (Permutation_sym (list_sort_perm (map render_param P2))))
    as (Q2 & E2 & Hp2).
  rewrite E1, E2 in E.
  apply joined_params_inj in E.
  - subst Q2. eapply Permutation_trans; [exact Hp1 | now apply Permutation_sym].
  - eapply plain_params_perm; eassumption.
  - eapply plain_params_perm; eassumption.
Qed.

Ltac solve_plain :=
  intros kv I; simpl in I;
  repeat (destruct I as [<-|I]; [split; reflexivity|]); destruct I.

Lemma construct_unique_key_unique_on_plain_params_witness :
  Permutation [("origin", "49931"); ("key", "K")] [("key", "K"); ("origin", "49931")].
Proof.
  apply (@construct_unique_key_unique_on_plain_params "http://api.test"
           [("origin", "49931"); ("key", "K")] [("key", "K"); ("origin", "49931")]);
    [solve_dict_wf | solve_dict_wf | solve_plain | solve_plain | reflexivity].
Defined.

(** ** The numbers of the listing *)

Lemma all_digits_string_of_uint (u : Decimal.uint) :
  all_chars Json.is_digit (NilEmpty.string_of_uint u) = true.
Proof. induction u; simpl; auto. Qed.

Lemma digit_is_numeric (c : ascii) :
  Json.is_digit c = true -> is_numeric_char c = true /\ lower_char c = c.
Proof.
  destruct c as [b0 b1 b2 b3 b4 b5 b6 b7].
  destruct b0, b1, b2, b3, b4, b5, b6, b7; try discriminate; split; reflexivity.
Qed.

Lemma all_digits_numeric (s : string) :
  all_chars Json.is_digit s = true ->
  all_chars is_numeric_char s = true /\ lower s = s.
Proof.
  induction s as [|c s IH]; simpl; [auto|].
  intros H. apply andb_prop in H. destruct H as [Hc Hs].
  destruct (digit_is_numeric c Hc) as [-> ->]. destruct (IH Hs) as [-> ->]. auto.
Qed.

Lemma append_empty (s : string) : (s ++ EmptyString)%string = s.
Proof. induction s; simpl; congruence. Qed.

(** [int(str(n)) == n], and [str(n)] is numeric and no command, for a
    positive [n]. *)
Lemma positive_number_typed (p : positive) :
  let s := Json.dumps_int (Zpos p) in
  lower s = s /\ isnumeric s = true /\ py_int s = Ok (Zpos p)
  /\ s <> "exit" /\ s <> "back".
Proof.
  cbv zeta. simpl Json.dumps_int.
  pose proof (all_digits_string_of_uint (Pos.to_uint p)) as D.
  pose proof (to_uint_head p) as Hh.
  destruct (all_digits_numeric _ D) as [Hn Hl].
  pose proof (scan_digits_string_of_uint (Pos.to_uint p) EmptyString eq_refl) as Sc.
  rewrite append_empty in Sc.
  repeat split.
  - exact Hl.
  - unfold isnumeric.
    destruct (NilEmpty.string_of_uint (Pos.to_uint p)) eqn:E; [|exact Hn].
    destruct (Pos.to_uint p); try contradiction; discriminate.
  - unfold py_int. rewrite D, Sc. simpl.
    change (N.of_uint (Pos.to_uint p)) with (Pos.of_uint (Pos.to_uint p)).
    now rewrite DecimalPos.Unsigned.of_to.
  - intros E. rewrite E in D. discriminate.
  - intros E. rewrite E in D. discriminate.
Qed.

Section Listing.

Variable API_KEY : string.
Variable py_repr : json -> string.

(** [print_sites] prints the lines of the listing, one for each site, in
    the order of the list and numbered from 1, and does nothing else. *)
Theorem print_sites_listing (sites_list : list NationalSite) (w : world) :
  print_sites sites_list 0 w
  = (Ok tt,
     mkWorld (cache_file w) (web w) (stdin w)
             (log w ++ map EvPrint (listing_lines 0 sites_list))).
Proof.
  assert (G : forall i w0,
             print_sites sites_list (Z.of_nat i) w0
             = (Ok tt,
                mkWorld (cache_file w0) (web w0) (stdin w0)
                        (log w0 ++ map EvPrint (listing_lines i sites_list)))).
  { induction sites_list as [|site rest IH]; intros i w0; simpl.
    - rewrite List.app_nil_r. now destruct w0.
    - unfold bind at 1, print at 1. cbn [fst snd].
      pose proof (IH (S i)) as IH'.
      rewrite Nat2Z.inj_succ in IH'. unfold Z.succ in IH'.
      rewrite IH'. unfold emit. simpl. now rewrite <- List.app_assoc. }
  exact (G 0 w).
Qed.

(** The number printed beside a site selects that site: for the site at
    place [i] of the list, the line typed being the number of its line of
    the listing, the round fetches and shows the places near this very
    site, and the site prompt comes again. *)
Theorem listed_number_selects_its_site
        (fuel : nat) (sites_list : list NationalSite) (temp : Z) (w : world)
        (i : nat) (site : NationalSite) (rest : list string) :
  nth_error sites_list i = Some site ->
  stdin w = Json.dumps_int (Z.of_nat i + 1) :: rest ->
  site_loop API_KEY py_repr (S fuel) sites_list temp w
  = ((response <- get_nearby_places API_KEY site ;;
      nearbyplaces <- getitem response "searchResults" ;;
      print (dashes 34) ;;
      print ("Places near " ++ name site)%string ;;
      print (dashes 34) ;;
      places <- iterate nearbyplaces ;;
      print_places py_repr places) ;;
     site_loop API_KEY py_repr fuel sites_list temp)
      (mkWorld (cache_file w) (web w) rest (log w ++ [EvInput site_prompt])).
Proof.
  intros Hn Hs.
  assert (Hi : (Z.of_nat i + 1 = Zpos (Pos.of_succ_nat i))%Z) by lia.
  destruct (positive_number_typed (Pos.of_succ_nat i)) as (Hl & Hnum & Hint & He & Hb).
  cbv zeta in *. rewrite <- Hi in *.
  assert (Hlen : (0 < Z.of_nat i + 1 <= Z.of_nat (List.length sites_list))%Z).
  { assert (i < List.length sites_list) by (apply nth_error_Some; congruence). lia. }
  cbn [site_loop]. unfold bind at 1. unfold input at 1. rewrite Hs, Hl.
  apply String.eqb_neq in He, Hb. rewrite He, Hb, Hnum.
  unfold bind at 1, lift at 1. rewrite Hint.
  assert (((0 <? Z.of_nat i + 1) && (Z.of_nat i + 1 <=? Z.of_nat (List.length sites_list)))%Z%bool = true)
    as -> by lia.
  unfold bind at 1, lift at 1.
  unfold show_site.
  replace (Z.to_nat (Z.of_nat i + 1 - 1)) with i by lia.
  rewrite Hn. reflexivity.
Qed.

End Listing.

Lemma listed_number_selects_its_site_witness :
  fst (site_loop "KEY" (fun _ => EmptyString) 2 [isle_royale] 0
                 (demo_world ["1"; "back"]))
  = Ok 0%Z.
Proof.
  rewrite (@listed_number_selects_its_site "KEY" (fun _ => EmptyString) 1
             [isle_royale] 0%Z (demo_world ["1"; "back"]) 0 isle_royale ["back"]
             eq_refl eq_refl).
  reflexivity.
Defined.

(** ** The names of the states *)

Lemma lower_char_idem (c : ascii) :
  lower_char (lower_char c) = lower_char c
  /\ is_space (lower_char c) = is_space c.
Proof.
  destruct c as [b0 b1 b2 b3 b4 b5 b6 b7].
  destruct b0, b1, b2, b3, b4, b5, b6, b7; split; reflexivity.
Qed.

(** [s.lower().lower() == s.lower()] *)
Lemma lower_idem (s : string) : lower (lower s) = lower s.
Proof.
  induction s as [|c s IH]; simpl; [reflexivity|].
  now rewrite (proj1 (lower_char_idem c)), IH.
Qed.

Lemma lstrip_lower (s : string) : lstrip (lower s) = lower (lstrip s).
Proof.
  induction s as [|c s IH]; simpl; [reflexivity|].
  rewrite (proj2 (lower_char_idem c)). now destruct (is_space c).
Qed.

Lemma rstrip_lower (s : string) : rstrip (lower s) = lower (rstrip s).
Proof.
  induction s as [|c s IH]; simpl; [reflexivity|].
  rewrite IH, (proj2 (lower_char_idem c)).
  destruct (rstrip s); simpl; [now destruct (is_space c) | reflexivity].
Qed.

(** [s.lower().strip() == s.strip().lower()] *)
Lemma strip_lower (s : string) : strip (lower s) = lower (strip s).
Proof. unfold strip. now rewrite lstrip_lower, rstrip_lower. Qed.

Lemma rstrip_idem (s : string) : rstrip (rstrip s) = rstrip s.
Proof.
  induction s as [|c s IH]; simpl; [reflexivity|].
  destruct (rstrip s) as [|d r] eqn:E.
  - destruct (is_space c) eqn:Sc; simpl; [reflexivity | now rewrite Sc].
  - cbn [rstrip]. cbn [rstrip] in IH. now rewrite IH.
Qed.

Lemma lstrip_black (s : string) : starts_black s -> lstrip s = s.
Proof. destruct s as [|c s]; simpl; [reflexivity | now intros ->]. Qed.

Lemma lstrip_starts_black (s : string) : starts_black (lstrip s).
Proof.
  induction s as [|c s IH]; simpl; [exact I|].
  destruct (is_space c) eqn:E; [exact IH | exact E].
Qed.

Lemma rstrip_starts_black (s : string) : starts_black s -> starts_black (rstrip s).
Proof.
  destruct s as [|c s]; simpl; [auto|]. intros E.
  destruct (rstrip s); [now rewrite E | exact E].
Qed.

(** [s.strip().strip() == s.strip()] *)
Lemma strip_idem (s : string) : strip (strip s) = strip s.
Proof.
  unfold strip.
  rewrite (lstrip_black (rstrip (lstrip s)))
    by apply rstrip_starts_black, lstrip_starts_black.
  apply rstrip_idem.
Qed.

Lemma state_key_normal (text : string) :
  lower (state_key text) = state_key text /\ strip (state_key text) = state_key text.
Proof.
  unfold state_key. split.
  - now rewrite strip_lower, lower_idem.
  - apply strip_idem.
Qed.

Lemma dict_get_set_eq {V} (d : dict V) (k k' : string) (v : V) :
  dict_get (dict_set d k' v) k = if String.eqb k k' then Some v else dict_get d k.
Proof.
  destruct (String.eqb_spec k k') as [->|N].
  - apply dict_get_set.
  - now apply dict_get_set_other.
Qed.

Lemma find_app {A} (p : A -> bool) (l1 l2 : list A) :
  find p (l1 ++ l2) = match find p l1 with Some x => Some x | None => find p l2 end.
Proof.
  induction l1 as [|x l1 IH]; simpl; [reflexivity|]. now destruct (p x).
Qed.

(** The dict that the loop of [build_state_url_dict] builds from the
    anchors, started from [acc]. *)
Lemma state_dict_fold (listing : list (string * string)) (acc : dict string)
      (k : string) :
  let sd := fold_left
              (fun d i => dict_set d (strip (lower (fst i))) (BASIC_URL ++ snd i)%string)
              listing acc in
  (dict_wf acc -> dict_wf sd)
  /\ dict_get sd k
     = match state_anchor listing k with
       | Some i => Some (BASIC_URL ++ snd i)%string
       | None => dict_get acc k
       end.
Proof.
  cbv zeta. revert acc; induction listing as [|i listing IH]; intros acc.
  - split; [auto | reflexivity].
  - cbn [fold_left]. destruct (IH (dict_set acc (strip (lower (fst i)))
                                     (BASIC_URL ++ snd i)%string)) as [W G].
    split; [intros Wa; apply W; now apply dict_set_wf|].
    rewrite G. unfold state_anchor. cbn [rev]. rewrite find_app.
    destruct (find _ (rev listing)); [reflexivity|].
    rewrite dict_get_set_eq. cbn [find]. fold (state_key (fst i)).
    now destruct (String.eqb k (state_key (fst i))).
Qed.

Section StateNames.

Variable API_KEY : string.
Variable find_state_listing : json -> option (list (string * string)).
Variable find_park_listing : json -> option (list (option string)).
Variable find_site_page : json -> option site_page.
Variable py_repr : json -> string.

(** The dict of the states, when [build_state_url_dict] returns one: it
    is made of the anchors found in the home page; its keys are distinct,
    lower-case and stripped; a name is a key exactly when it is the
    lower-cased, stripped text of an anchor, and its URL is [BASIC_URL]
    and the [href] of the last such anchor. *)
Lemma build_state_url_dict_shape
      (w w1 : world) (states_dict : dict string) :
  build_state_url_dict find_state_listing w = (Ok states_dict, w1) ->
  exists response listing,
    make_request_with_cache BASIC_URL w = (Ok response, w1)
    /\ find_state_listing response = Some listing
    /\ states_dict
       = fold_left (fun d i => dict_set d (state_key (fst i))
                                 (BASIC_URL ++ snd i)%string) listing [].
Proof.
  unfold build_state_url_dict, bind. intros H.
  destruct (make_request_with_cache BASIC_URL w) as [[response|e] w'] eqn:E;
    [|discriminate].
  destruct (find_state_listing response) as [listing|] eqn:F; [|discriminate].
  unfold found, ret in H. injection H as <- <-.
  exists response, listing. repeat split; assumption.
Qed.

Lemma state_dict_keys_normal (listing : list (string * string)) (k : string) :
  dict_mem (fold_left (fun d i => dict_set d (state_key (fst i))
                                    (BASIC_URL ++ snd i)%string) listing []) k
  = true ->
  lower k = k /\ strip k = k.
Proof.
  unfold dict_mem. intros H.
  pose proof (state_dict_fold listing [] k) as G. cbv zeta in G.
  fold (state_key) in G.
  destruct G as [_ G]. unfold state_key in H. rewrite G in H.
  unfold state_anchor in H.
  destruct (find _ (rev listing)) as [i|] eqn:Fi; [|discriminate].
  apply find_some in Fi. destruct Fi as [_ Fi]. apply String.eqb_eq in Fi.
  subst k. apply state_key_normal.
Qed.

(** The dict of states is exactly the anchors of the index page keyed by
    their normalised text: a key maps to the address of the last anchor
    with that text (a later anchor overwrites an earlier one), a key with
    no such anchor is absent, and every key is lower-case and stripped. *)
Theorem build_state_url_dict_entries
        (w w1 : world) (states_dict : dict string) :
  build_state_url_dict find_state_listing w = (Ok states_dict, w1) ->
  exists response listing,
    make_request_with_cache BASIC_URL w = (Ok response, w1)
    /\ find_state_listing response = Some listing
    /\ dict_wf states_dict
    /\ (forall k, dict_get states_dict k
                  = match state_anchor listing k with
                    | Some i => Some (BASIC_URL ++ snd i)%string
                    | None => None
                    end)
    /\ (forall k, dict_mem states_dict k = true -> lower k = k /\ strip k = k).
Proof.
  intros H. apply build_state_url_dict_shape in H.
  destruct H as (response & listing & E & F & ->).
  exists response, listing.
  assert (G := fun k => state_dict_fold listing [] k). cbv zeta in G.
  split; [exact E|]. split; [exact F|]. split; [|split].
  - apply (proj1 (G EmptyString)). constructor.
  - intros k. apply (proj2 (G k)).
  - intros k. apply state_dict_keys_normal.
Qed.

(** A line that is not "exit" and whose lower-casing is a state of the
    dict is accepted, whatever its case: the subscript by the lower-cased
    line finds the URL (there is no [KeyError]), the sites of the state
    are fetched and listed, and the inner loop starts with [temp] 0. *)
Theorem state_loop_known
        (fuel : nat) (states_dict : dict string) (w : world)
        (line : string) (rest : list string) (state_url : string) :
  stdin w = line :: rest -> lower line <> "exit" ->
  dict_get states_dict (lower line) = Some state_url ->
  state_loop API_KEY find_park_listing find_site_page py_repr
             (S fuel) states_dict w
  = (sites_list <- get_sites_for_state find_park_listing find_site_page state_url ;;
     print (dashes 34) ;;
     print ("List of national sites in " ++ lower line)%string ;;
     print (dashes 34) ;;
     print_sites sites_list 0 ;;
     temp <- site_loop API_KEY py_repr fuel sites_list 0 ;;
     state_loop API_KEY find_park_listing find_site_page py_repr fuel states_dict)
      (mkWorld (cache_file w) (web w) rest (log w ++ [EvInput state_prompt])).
Proof.
  intros Hs He Hg. cbn [state_loop]. unfold bind at 1. unfold input at 1.
  rewrite Hs. apply String.eqb_neq in He. rewrite He.
  rewrite lower_idem, contains_keys. unfold dict_mem. rewrite Hg.
  unfold bind at 1, lift at 1, subscript. rewrite Hg. reflexivity.
Qed.

(** The line typed is lower-cased and not stripped, the names of the dict
    are both: a state typed with white space before or after it is
    refused with the error message, also when the state is in the dict. *)
Theorem padded_state_name_is_refused
        (fuel : nat) (w0 w1 w : world) (states_dict : dict string)
        (line : string) (rest : list string) :
  build_state_url_dict find_state_listing w0 = (Ok states_dict, w1) ->
  stdin w = line :: rest -> lower line <> "exit" ->
  strip (lower line) <> lower line ->
  state_loop API_KEY find_park_listing find_site_page py_repr
             (S fuel) states_dict w
  = state_loop API_KEY find_park_listing find_site_page py_repr
               fuel states_dict
               (mkWorld (cache_file w) (web w) rest
                  (log w ++ [EvInput state_prompt;
                             EvPrint "[Error]: Enter proper state name"])).
Proof.
  intros Hb Hs He Hp.
  apply build_state_url_dict_shape in Hb.
  destruct Hb as (_ & listing & _ & _ & Hd).
  pose proof (state_dict_keys_normal listing) as Hk. rewrite <- Hd in Hk.
  assert (Hm : dict_mem states_dict (lower (lower line)) = false).
  { rewrite lower_idem. destruct (dict_mem states_dict (lower line)) eqn:M;
      [|reflexivity].
    destruct (Hk _ M) as [_ Hst]. contradiction. }
  cbn [state_loop]. unfold bind at 1. unfold input at 1.
  rewrite Hs. apply String.eqb_neq in He. rewrite He, contains_keys, Hm.
  unfold bind, print, emit. simpl. now rewrite <- List.app_assoc.
Qed.

End StateNames.

(** ** The sites of a state *)

Section Sites.

Variable find_park_listing : json -> option (list (option string)).
Variable find_site_page : json -> option site_page.

Lemma get_site_instance_page (site_url : string) (w w1 : world)
      (site : NationalSite) :
  get_site_instance find_site_page site_url w = (Ok site, w1) ->
  exists response page,
    make_request_with_cache site_url w = (Ok response, w1)
    /\ find_site_page response = Some page
    /\ site = site_of_page page.
Proof.
  unfold get_site_instance, bind. intros H.
  destruct (make_request_with_cache site_url w) as [[response|e] w'] eqn:E;
    [|discriminate].
  destruct (find_site_page response) as [page|] eqn:F; [|discriminate].
  unfold found, ret in H. injection H as <- <-.
  now exists response, page.
Qed.

(** The site [get_site_instance] returns is made of the texts of the
    page it has fetched, each of them stripped: the name and the category
    from the title container, the address from the locality and the
    region joined by a comma, the zipcode and the phone from the footer;
    so no field but the address can begin or end with white space. *)
Theorem get_site_instance_fields_stripped
        (site_url : string) (w w1 : world) (site : NationalSite) :
  get_site_instance find_site_page site_url w = (Ok site, w1) ->
  exists response page,
    make_request_with_cache site_url w = (Ok response, w1)
    /\ find_site_page response = Some page
    /\ name site = strip (hero_a page)
    /\ category site = strip (hero_span page)
    /\ address site
       = (strip (addressLocality page) ++ ", " ++ strip (addressRegion page))%string
    /\ zipcode site = strip (postalCode page)
    /\ phone site = strip (telephone page)
    /\ strip (name site) = name site
    /\ strip (category site) = category site
    /\ strip (zipcode site) = zipcode site
    /\ strip (phone site) = phone site.
Proof.
  intros H. apply get_site_instance_page in H.
  destruct H as (response & page & E & F & ->).
  exists response, page. cbn.
  repeat split; try assumption; apply strip_idem.
Qed.

Lemma park_loop_fetched (listing : list (option string)) :
  forall (acc sites : list NationalSite) (w w1 : world),
    park_loop find_site_page listing acc w = (Ok sites, w1) ->
    exists new,
      sites = acc ++ new /\ parks_fetched find_site_page listing w new w1.
Proof.
  induction listing as [|i rest IH]; intros acc sites w w1 H.
  - cbn in H. unfold ret in H. injection H as <- <-.
    exists []. split; [now rewrite List.app_nil_r | constructor].
  - cbn [park_loop] in H. unfold bind at 1 in H.
    destruct i as [h|]; [|discriminate]. cbn [found] in H.
    unfold ret at 1 in H. unfold bind at 1 in H.
    destruct (get_site_instance find_site_page
                (BASIC_URL ++ h ++ "index.htm") w) as [[site|e] w'] eqn:E;
      [|discriminate].
    apply IH in H. destruct H as (new & -> & F).
    exists (site :: new). split.
    + now rewrite <- List.app_assoc.
    + econstructor; eassumption.
Qed.

Lemma parks_fetched_length (listing : list (option string)) (w w1 : world)
      (sites : list NationalSite) :
  parks_fetched find_site_page listing w sites w1 ->
  List.length sites = List.length listing.
Proof. induction 1; simpl; congruence. Qed.

(** [get_sites_for_state] returns one site per park [div] of the state
    page, in the order of the page: the parks are fetched one after the
    other, the i-th site is what [get_site_instance] returns for
    [BASIC_URL], the i-th park's address and [index.htm], called in the
    world that the fetch of the park before it has left, and the call
    ends in the world after the last fetch. *)
Theorem get_sites_for_state_one_site_per_park
        (state_url : string) (w w1 : world) (sites : list NationalSite) :
  get_sites_for_state find_park_listing find_site_page state_url w
  = (Ok sites, w1) ->
  exists response w' listing,
    make_request_with_cache state_url w = (Ok response, w')
    /\ find_park_listing response = Some listing
    /\ parks_fetched find_site_page listing w' sites w1
    /\ List.length sites = List.length listing.
Proof.
  unfold get_sites_for_state, bind. intros H.
  destruct (make_request_with_cache state_url w) as [[response|e] w'] eqn:E;
    [|discriminate].
  destruct (find_park_listing response) as [listing|] eqn:F; [|discriminate].
  cbn [found] in H. unfold ret at 1 in H.
  apply park_loop_fetched in H. destruct H as (new & -> & F2).
  exists response, w', listing. cbn [app].
  repeat split; try assumption. eapply parks_fetched_length, F2.
Qed.

(** A park [div] without an anchor stops the whole listing: the
    exception of the missing anchor is raised and no list of sites is
    returned, whatever parks came before. *)
Theorem get_sites_for_state_park_without_anchor
        (state_url : string) (w w' : world) (response : json)
        (listing : list (option string)) :
  make_request_with_cache state_url w = (Ok response, w') ->
  find_park_listing response = Some listing ->
  In None listing ->
  exists e, fst (get_sites_for_state find_park_listing find_site_page state_url w)
            = Raise e.
Proof.
  intros E F Hin. unfold get_sites_for_state, bind. rewrite E, F.
  cbn [found]. unfold ret at 1.
  clear E F. generalize (@nil NationalSite) as acc. revert w'.
  induction listing as [|i rest IH]; intros w' acc; [contradiction|].
  cbn [park_loop]. unfold bind at 1.
  destruct i as [h|].
  - cbn [found]. unfold ret at 1. unfold bind at 1.
    destruct (get_site_instance find_site_page _ w') as [[site|e] w''].
    + apply IH. destruct Hin as [Hin|Hin]; [discriminate | exact Hin].
    + now exists e.
  - now exists ParseError.
Qed.

End Sites.

(** ** The places near a site *)


Section Places.

Variable API_KEY : string.
Variable py_repr : json -> string.

(** When the cache file holds a value under the site's postal code,
    [get_nearby_places] returns that value, whatever it is: it reads the
    file and prints, sends no request and leaves the file as it was. *)
Theorem get_nearby_places_hit
        (site : NationalSite) (w : world) (store : dict json) (body : json) :
  loaded (cache_file w) = JDict store ->
  dict_get store (zipcode site) = Some body ->
  get_nearby_places API_KEY site w
  = (Ok body,
     mkWorld (cache_file w) (web w) (stdin w)
       (log w ++ [EvRead; EvPrint "Using Cache"])).
Proof.
  intros Hl Hg. unfold get_nearby_places, get_nearby_places_frame, bind.
  rewrite open_cache_loaded, Hl. cbn [keys ret].
  rewrite contains_keys. unfold dict_mem. rewrite Hg. simpl.
  unfold lift, subscript. rewrite Hg. simpl.
  unfold emit. simpl. now rewrite <- List.app_assoc.
Qed.


(** A cache file that holds a JSON value other than an object makes
    [get_nearby_places] raise [AttributeError] at [.keys()], before any
    request. *)
Theorem get_nearby_places_non_mapping (site : NationalSite) (w : world) :
  (forall store, loaded (cache_file w) <> JDict store) ->
  get_nearby_places API_KEY site w = (Raise AttributeError, emit EvRead w).
Proof.
  intros Hn. unfold get_nearby_places, get_nearby_places_frame, bind.
  rewrite open_cache_loaded.
  destruct (loaded (cache_file w)) as [| | | | |store|]; try reflexivity.
  now destruct (Hn store).
Qed.

(** One place with its name and its three fields prints one line.  The
    last slot of the line is "no city" when the city is empty and the
    address otherwise: the city itself is never shown. *)
Theorem print_place_line
        (place fields : dict json) (name a c g : json) (w : world) :
  dict_get place "name" = Some name ->
  dict_get place "fields" = Some (JDict fields) ->
  dict_get fields "address" = Some a ->
  dict_get fields "city" = Some c ->
  dict_get fields "group_sic_code_name" = Some g ->
  print_place py_repr (JDict place) w
  = (Ok tt, emit (EvPrint (place_line py_repr name a c g)) w).
Proof.
  intros Hn Hf Ha Hc Hg. unfold print_place, bind, getitem, lift, subscript.
  rewrite Hn, Hf, Ha, Hc, Hg.
  unfold place_line.
  destruct (is_empty_str a), (is_empty_str c), (is_empty_str g);
    unfold ret; rewrite ?Hf, ?Ha, ?Hg; reflexivity.
Qed.

(** A place that lacks one of the keys read stops the listing with
    [KeyError], and nothing is printed for it. *)
Theorem print_place_missing_key
        (place : dict json) (w : world) :
  dict_get place "name" = None \/ dict_get place "fields" = None
  \/ (exists fields, dict_get place "fields" = Some (JDict fields)
        /\ (dict_get fields "address" = None
            \/ dict_get fields "city" = None
            \/ dict_get fields "group_sic_code_name" = None)) ->
  print_place py_repr (JDict place) w = (Raise KeyError, w).
Proof.
  intros H. unfold print_place, bind, getitem, lift, subscript.
  destruct (dict_get place "name") as [n|] eqn:Hn.
  2:{ reflexivity. }
  destruct (dict_get place "fields") as [f|] eqn:Hf.
  2:{ reflexivity. }
  destruct H as [H|[H|(fields & [= ->] & H)]]; try discriminate.
  destruct (dict_get fields "address") as [a|] eqn:Ha; [|reflexivity].
  destruct (is_empty_str a); unfold ret; rewrite ?Hf, ?Ha;
    (destruct (dict_get fields "city") as [c|] eqn:Hc; [|reflexivity]);
    (destruct (is_empty_str c); unfold ret; rewrite ?Hf, ?Ha;
     (destruct (dict_get fields "group_sic_code_name") as [g|] eqn:Hg;
      [|reflexivity]));
    destruct H as [H|[H|H]]; discriminate.
Qed.

End Places.

(** ** Failures that reach the user *)

Section Failures.

Variable API_KEY : string.
Variable find_state_listing : json -> option (list (string * string)).
Variable find_park_listing : json -> option (list (option string)).
Variable find_site_page : json -> option site_page.
Variable py_repr : json -> string.

(** Without the index page in the cache and without an answer to the
    request for it, the program ends with the request's exception before
    it prompts: no line is read, and the cache file is as it was. *)
Theorem main_fails_before_prompting (w : world) (store : dict json) :
  loaded (cache_file w) = JDict store ->
  dict_get store BASIC_URL = None ->
  web w BASIC_URL [] = None ->
  main API_KEY find_state_listing find_park_listing find_site_page py_repr w
  = (Raise RequestException,
     mkWorld (cache_file w) (web w) (stdin w)
       (log w ++ [EvRead; EvPrint "Fetching"; EvGet BASIC_URL []])).
Proof.
  intros Hl Hg Hw. unfold main, build_state_url_dict, bind.
  now rewrite (make_request_miss_failed BASIC_URL w Hl Hg Hw).
Qed.

(** An answer of the places API that is an object without the key
    [searchResults] ends the program with [KeyError]: the site was
    selected and the places fetched, and nothing is printed for it. *)
Theorem show_site_without_results
        (sites_list : list NationalSite) (n : Z) (site : NationalSite)
        (w w1 : world) (answer : dict json) :
  nth_error sites_list (Z.to_nat (n - 1)) = Some site ->
  get_nearby_places API_KEY site w = (Ok (JDict answer), w1) ->
  dict_get answer "searchResults" = None ->
  show_site API_KEY py_repr sites_list n w = (Raise KeyError, w1).
Proof.
  intros Hs Hp Hg. unfold show_site. rewrite Hs.
  unfold bind at 1. unfold ret at 1. unfold bind at 1. rewrite Hp.
  unfold bind at 1. unfold getitem, lift, subscript. now rewrite Hg.
Qed.

End Failures.

Lemma main_fails_before_prompting_witness :
  demo_main (unplugged (demo_world []))
  = (Raise RequestException,
     mkWorld Absent (web (unplugged (demo_world []))) []
       [EvRead; EvPrint "Fetching"; EvGet BASIC_URL []]).
Proof.
  exact (@main_fails_before_prompting "KEY" demo_state_listing
           demo_park_listing demo_site_page (fun _ => EmptyString)
           (unplugged (demo_world [])) [] eq_refl eq_refl eq_refl).
Defined.

Lemma show_site_without_results_witness :
  show_site "KEY" (fun _ => EmptyString) [isle_royale] 1 no_results_world
  = (Raise KeyError,
     snd (get_nearby_places "KEY" isle_royale no_results_world)).
Proof.
  apply (@show_site_without_results "KEY" (fun _ => EmptyString)
           [isle_royale] 1%Z isle_royale no_results_world
           (snd (get_nearby_places "KEY" isle_royale no_results_world))
           [("resultsCount", JInt 0)]).
  - reflexivity.
  - vm_compute. reflexivity.
  - reflexivity.
Defined.

(** ** Instances *)


Lemma get_sites_for_state_replays_witness :
  let w1 := snd (get_sites_for_state demo_park_listing demo_site_page
                   michigan_url (demo_world [])) in
  let r := get_sites_for_state demo_park_listing demo_site_page michigan_url
             (unplugged w1) in
  fst r = Ok [isle_royale]
  /\ cache_file (snd r) = cache_file w1
  /\ forallb local_event (new_events (unplugged w1) (snd r)) = true.
Proof.
  cbv zeta.
  refine (@get_sites_for_state_replays demo_park_listing demo_site_page
            michigan_url (demo_world [])
            (snd (get_sites_for_state demo_park_listing demo_site_page
                    michigan_url (demo_world [])))
            (unplugged
               (snd (get_sites_for_state demo_park_listing demo_site_page
                       michigan_url (demo_world []))))
            [isle_royale] _ _).
  - vm_compute. reflexivity.
  - apply cache_le_same_file. reflexivity.
Defined.

Lemma build_state_url_dict_replays_witness :
  let w1 := snd (build_state_url_dict demo_state_listing (demo_world [])) in
  let r := build_state_url_dict demo_state_listing (unplugged w1) in
  fst r = Ok demo_states
  /\ cache_file (snd r) = cache_file w1
  /\ forallb local_event (new_events (unplugged w1) (snd r)) = true.
Proof.
  cbv zeta.
  refine (@build_state_url_dict_replays demo_state_listing (demo_world [])
            (snd (build_state_url_dict demo_state_listing (demo_world [])))
            (unplugged
               (snd (build_state_url_dict demo_state_listing (demo_world []))))
            demo_states _ _).
  - vm_compute. reflexivity.
  - apply cache_le_same_file. reflexivity.
Defined.

Lemma build_state_url_dict_entries_witness :
  exists response listing,
    make_request_with_cache BASIC_URL (demo_world [])
    = (Ok response, snd (build_state_url_dict demo_state_listing (demo_world [])))
    /\ demo_state_listing response = Some listing
    /\ dict_wf demo_states
    /\ (forall k, dict_get demo_states k
                  = match state_anchor listing k with
                    | Some i => Some (BASIC_URL ++ snd i)%string
                    | None => None
                    end)
    /\ (forall k, dict_mem demo_states k = true -> lower k = k /\ strip k = k).
Proof.
  apply (@build_state_url_dict_entries demo_state_listing (demo_world []) _
           demo_states).
  vm_compute. reflexivity.
Defined.

Lemma state_loop_known_witness :
  state_loop "KEY" demo_park_listing demo_site_page (fun _ => EmptyString)
             2 demo_states (demo_world ["Michigan"; "exit"])
  = (sites_list <- get_sites_for_state demo_park_listing demo_site_page
                     michigan_url ;;
     print (dashes 34) ;;
     print "List of national sites in michigan" ;;
     print (dashes 34) ;;
     print_sites sites_list 0 ;;
     temp <- site_loop "KEY" (fun _ => EmptyString) 1 sites_list 0 ;;
     state_loop "KEY" demo_park_listing demo_site_page (fun _ => EmptyString)
                1 demo_states)
      (mkWorld Absent (web (demo_world [])) ["exit"] [EvInput state_prompt]).
Proof.
  apply (@state_loop_known "KEY" demo_park_listing demo_site_page
           (fun _ => EmptyString) 1 demo_states
           (demo_world ["Michigan"; "exit"]) "Michigan" ["exit"] michigan_url
           eq_refl ltac:(strings_differ) eq_refl).
Defined.

Lemma padded_state_name_is_refused_witness :
  state_loop "KEY" demo_park_listing demo_site_page (fun _ => EmptyString)
             2 demo_states (demo_world [" michigan"; "exit"])
  = state_loop "KEY" demo_park_listing demo_site_page (fun _ => EmptyString)
               1 demo_states
               (mkWorld Absent (web (demo_world [])) ["exit"]
                  [EvInput state_prompt;
                   EvPrint "[Error]: Enter proper state name"]).
Proof.
  apply (@padded_state_name_is_refused "KEY" demo_state_listing
           demo_park_listing demo_site_page (fun _ => EmptyString) 1
           (demo_world [])
           (snd (build_state_url_dict demo_state_listing (demo_world [])))
           (demo_world [" michigan"; "exit"]) demo_states
           " michigan" ["exit"]).
  - vm_compute. reflexivity.
  - reflexivity.
  - strings_differ.
  - strings_differ.
Defined.

Lemma get_site_instance_fields_stripped_witness :
  exists response page,
    make_request_with_cache "https://www.nps.gov/isro/index.htm" (demo_world [])
    = (Ok response,
       snd (get_site_instance demo_site_page
              "https://www.nps.gov/isro/index.htm" (demo_world [])))
    /\ demo_site_page response = Some page
    /\ name isle_royale = strip (hero_a page)
    /\ category isle_royale = strip (hero_span page)
    /\ address isle_royale
       = (strip (addressLocality page) ++ ", " ++ strip (addressRegion page))%string
    /\ zipcode isle_royale = strip (postalCode page)
    /\ phone isle_royale = strip (telephone page)
    /\ strip (name isle_royale) = name isle_royale
    /\ strip (category isle_royale) = category isle_royale
    /\ strip (zipcode isle_royale) = zipcode isle_royale
    /\ strip (phone isle_royale) = phone isle_royale.
Proof.
  apply (@get_site_instance_fields_stripped demo_site_page
           "https://www.nps.gov/isro/index.htm" (demo_world [])
           (snd (get_site_instance demo_site_page
                   "https://www.nps.gov/isro/index.htm" (demo_world [])))
           isle_royale).
  vm_compute. reflexivity.
Defined.

Lemma get_sites_for_state_one_site_per_park_witness :
  exists response w' listing,
    make_request_with_cache michigan_url (demo_world []) = (Ok response, w')
    /\ demo_park_listing response = Some listing
    /\ parks_fetched demo_site_page listing w' [isle_royale]
         (snd (get_sites_for_state demo_park_listing demo_site_page
                 michigan_url (demo_world [])))
    /\ List.length [isle_royale] = List.length listing.
Proof.
  apply (@get_sites_for_state_one_site_per_park demo_park_listing
           demo_site_page michigan_url (demo_world [])
           (snd (get_sites_for_state demo_park_listing demo_site_page
                   michigan_url (demo_world [])))
           [isle_royale]).
  vm_compute. reflexivity.
Defined.

Lemma get_sites_for_state_park_without_anchor_witness :
  exists e,
    fst (get_sites_for_state broken_park_listing demo_site_page michigan_url
           (demo_world []))
    = Raise e.
Proof.
  apply (@get_sites_for_state_park_without_anchor broken_park_listing
           demo_site_page michigan_url (demo_world [])
           (snd (make_request_with_cache michigan_url (demo_world [])))
           (JStr (Json.dumps (JDict [("searchResults", JList [])])))
           [Some "/isro/"; None]).
  - vm_compute. reflexivity.
  - reflexivity.
  - right. left. reflexivity.
Defined.

Lemma get_nearby_places_hit_witness :
  get_nearby_places "KEY" isle_royale places_cached_world
  = (Ok (JDict [("searchResults", JList [])]),
     mkWorld (cache_file places_cached_world) (web places_cached_world) []
       [EvRead; EvPrint "Using Cache"]).
Proof.
  apply (@get_nearby_places_hit "KEY" isle_royale places_cached_world
           [("49931", JDict [("searchResults", JList [])])]
           (JDict [("searchResults", JList [])])).
  - vm_compute. reflexivity.
  - reflexivity.
Defined.


Lemma get_nearby_places_non_mapping_witness :
  get_nearby_places "KEY" isle_royale list_cache_world
  = (Raise AttributeError, emit EvRead list_cache_world).
Proof.
  apply (@get_nearby_places_non_mapping "KEY" isle_royale list_cache_world).
  intros store H. vm_compute in H. discriminate H.
Defined.

Lemma print_place_line_witness :
  print_place (fun _ => EmptyString) (JDict cafe) (demo_world [])
  = (Ok tt,
     emit (EvPrint "- Cafe (no category): 1 Main St, 1 Main St") (demo_world [])).
Proof.
  exact (@print_place_line (fun _ => EmptyString) cafe
           [("address", JStr "1 Main St"); ("city", JStr "Houghton");
            ("group_sic_code_name", JStr EmptyString)]
           (JStr "Cafe") (JStr "1 Main St") (JStr "Houghton") (JStr EmptyString)
           (demo_world []) eq_refl eq_refl eq_refl eq_refl eq_refl).
Defined.

Lemma print_place_missing_key_witness :
  print_place (fun _ => EmptyString) (JDict [("name", JStr "Cafe")])
              (demo_world [])
  = (Raise KeyError, demo_world []).
Proof.
  apply (@print_place_missing_key (fun _ => EmptyString)
           [("name", JStr "Cafe")] (demo_world [])).
  right. left. reflexivity.
Defined.
